(** * LightBox 2.0: the CosmicLED animation engine

    A shallow embedding of [CosmicLED.py] (the render loop, the program
    registry, configuration updates and shutdown), of the HSV conversion of
    [LB_Interface_work/test_color_math.py], and of the pattern functions of
    [animations/cosmic.py] and [scripts/waves.py], together with the
    properties the design document states about them.

    Conventions of the embedding:
    - Python [int] is [Z]; Python [float] is idealised as an exact number,
      [Q] where the code only uses field operations, [%], [abs] and [int()],
      and [R] where it calls [pow] with a fractional exponent.  Rounding
      error, infinities and NaN of IEEE doubles are outside the model.
    - a Python object used through its attributes (the [Config] instance) is
      a finite map from attribute names to values; what [hasattr] and
      [setattr] do on it, and what the strip's brightness setter does, belong
      to code outside the sources and are parameters of the embedding;
    - a call that may raise returns the exception as a value. *)

From Stdlib Require Import ZArith QArith Qround Qabs Qminmax Reals Lra Lqa Lia.
From stdpp Require Import gmap strings list.

Close Scope Q_scope.
Close Scope R_scope.
Open Scope Z_scope.

(** ** Python values and exceptions *)

#[warnings="-register-all"]
Inductive pyval : Type :=
| PNone
| PBool (b : bool)
| PInt (z : Z)
| PFloat (q : Q)
| PStr (s : string)
| PList (l : list pyval).

(** [KeyboardInterrupt] derives from [BaseException]; the other ones derive
    from [Exception]. *)
Inductive exn : Type :=
| KeyboardInterrupt
| TypeError
| IndexError
| AttributeError
| OtherError (msg : string).

Inductive outcome (A : Type) : Type :=
| Ok (a : A)
| Raise (e : exn).
Arguments Ok {A} a.
Arguments Raise {A} e.

(** ** The data of the engine *)

Definition rgb : Type := Z * Z * Z.

Definition black : rgb := (0, 0, 0).

(** The [Config] instance: the values of its attributes. *)
Abbreviation Config := (gmap string pyval).

(** Reading an attribute, [config.NAME]. *)
Definition getattr (c : Config) (key : string) : outcome pyval :=
  match c !! key with
  | Some v => Ok v
  | None => Raise AttributeError
  end.

(** A program is called as [program(pixels, config, frame)]: it mutates the
    pixel buffer in place and may raise part-way, leaving its writes behind. *)
Definition Pattern : Type := list rgb -> Config -> Z -> list rgb * option exn.

(** What the hardware side of the strip sees, in order of time. *)
Inductive SinkEvent : Type :=
| Committed (frame : list rgb)
| Released.

(** The [neopixel.NeoPixel] strip, the engine's frame sink: the pixel buffer
    the programs write to, the brightness scalar, and the log of what
    [show()] committed and of [deinit()] releasing the strip, oldest
    first. *)
Record NeoPixel : Type := mkNeoPixel {
  np_buf : list rgb;
  np_brightness : pyval;
  np_log : list SinkEvent
}.

Definition np_fill (c : rgb) (p : NeoPixel) : NeoPixel :=
  mkNeoPixel (replicate (length (np_buf p)) c) (np_brightness p) (np_log p).

Definition np_show (p : NeoPixel) : NeoPixel :=
  mkNeoPixel (np_buf p) (np_brightness p) (np_log p ++ [Committed (np_buf p)]).

Definition np_deinit (p : NeoPixel) : NeoPixel :=
  mkNeoPixel (np_buf p) (np_brightness p) (np_log p ++ [Released]).

Definition np_set_buf (b : list rgb) (p : NeoPixel) : NeoPixel :=
  mkNeoPixel b (np_brightness p) (np_log p).

(** The frames committed so far, oldest first. *)
Fixpoint committed (log : list SinkEvent) : list (list rgb) :=
  match log with
  | [] => []
  | Committed f :: rest => f :: committed rest
  | Released :: rest => committed rest
  end.

(** [self.stats] *)
Record Stats : Type := mkStats {
  fps : Q;
  frame_count : Z;
  uptime : Z;
  stats_current_program : string;
  last_update : string
}.

(** The [CosmicLED] controller object. *)
Record CosmicLED : Type := mkCosmicLED {
  config : Config;
  running : bool;
  current_program : string;
  programs : gmap string Pattern;
  stats : Stats;
  pixels : NeoPixel
}.

Definition set_config (c : Config) (s : CosmicLED) : CosmicLED :=
  mkCosmicLED c (running s) (current_program s) (programs s) (stats s)
              (pixels s).

Definition set_running (b : bool) (s : CosmicLED) : CosmicLED :=
  mkCosmicLED (config s) b (current_program s) (programs s) (stats s)
              (pixels s).

Definition set_programs (m : gmap string Pattern) (s : CosmicLED) : CosmicLED :=
  mkCosmicLED (config s) (running s) (current_program s) m (stats s)
              (pixels s).

Definition set_stats (st : Stats) (s : CosmicLED) : CosmicLED :=
  mkCosmicLED (config s) (running s) (current_program s) (programs s) st
              (pixels s).

Definition set_pixels (p : NeoPixel) (s : CosmicLED) : CosmicLED :=
  mkCosmicLED (config s) (running s) (current_program s) (programs s)
              (stats s) p.

(** ** The code outside the sources *)

(** [update_config] reaches the [Config] class and the [neopixel] library,
    neither of which is among the sources, through [hasattr], [setattr], the
    read of [config.BRIGHTNESS] and the assignment to [pixels.brightness].
    What these do for a given name or value is the host's business: a name
    may be a property, a read-only or a special attribute such as
    [__class__]; the brightness setter may clamp or reject its argument;
    each of them may raise. *)
Record Host : Type := mkHost {
  host_hasattr : Config -> string -> outcome bool;
  host_setattr : Config -> string -> pyval -> outcome Config;
  host_brightness : Config -> outcome pyval;
  host_set_brightness : pyval -> NeoPixel -> outcome NeoPixel
}.

(** ** [CosmicLED.switch_program] *)

Definition switch_program (program_name : string) (s : CosmicLED)
  : bool * CosmicLED :=
  match programs s !! program_name with
  | Some _ =>
      let st := stats s in
      (true,
       mkCosmicLED (config s) (running s) program_name (programs s)
         (mkStats (fps st) (frame_count st) (uptime st) program_name
                  (last_update st))
         (pixels s))
  | None => (false, s)
  end.

(** ** [CosmicLED.update_config] *)

(** The loop over [new_config.items()], in the dict's insertion order: the
    configuration it leaves and the exception that ended it, if any. *)
Fixpoint apply_items (h : Host) (items : list (string * pyval)) (c : Config)
  : Config * option exn :=
  match items with
  | [] => (c, None)
  | (key, value) :: rest =>
      match host_hasattr h c key with
      | Raise e => (c, Some e)
      | Ok false => apply_items h rest c
      | Ok true =>
          match host_setattr h c key value with
          | Ok c' => apply_items h rest c'
          | Raise e => (c, Some e)
          end
      end
  end.

(** The method has no [return] statement: its result is [None].  The last
    line reads [self.config.BRIGHTNESS] and assigns it to
    [self.pixels.brightness]. *)
Definition update_config (h : Host) (new_config : list (string * pyval))
    (s : CosmicLED) : outcome pyval * CosmicLED :=
  match apply_items h new_config (config s) with
  | (c, Some e) => (Raise e, set_config c s)
  | (c, None) =>
      let s1 := set_config c s in
      match host_brightness h c with
      | Raise e => (Raise e, s1)
      | Ok b =>
          match host_set_brightness h b (pixels s1) with
          | Ok p => (Ok PNone, set_pixels p s1)
          | Raise e => (Raise e, s1)
          end
      end
  end.

(** ** [CosmicLED.cleanup] *)

Definition cleanup (s : CosmicLED) : CosmicLED :=
  let s1 := set_running false s in
  let s2 := set_pixels (np_fill black (pixels s1)) s1 in
  let s3 := set_pixels (np_show (pixels s2)) s2 in
  set_pixels (np_deinit (pixels s3)) s3.

(** ** [CosmicLED.load_programs] *)

(** What importing one file of the scripts folder gives: an [Exception]
    while the module is loaded, which the [except] clause catches, a module
    without an [animate] attribute, or the module's [animate] function.  (An
    import that ends in [SystemExit] or [KeyboardInterrupt] is not caught and
    leaves [load_programs] and the constructor; such a scan has no result
    here.) *)
Inductive load_result : Type :=
| LoadError
| NoAnimate
| HasAnimate (animate : Pattern).

Definition endswith (s suffix : string) : bool :=
  let n := String.length s in
  let k := String.length suffix in
  (k <=? n)%nat && String.eqb (String.substring (n - k)%nat k s) suffix.

Definition startswith (s pre : string) : bool := String.prefix pre s.

(** [filename[:-3]] *)
Definition drop_last3 (s : string) : string :=
  String.substring 0 (String.length s - 3)%nat s.

Fixpoint load_scripts (files : list (string * load_result))
    (m : gmap string Pattern) : gmap string Pattern :=
  match files with
  | [] => m
  | (filename, r) :: rest =>
      if endswith filename ".py" && negb (startswith filename "__") then
        match r with
        | HasAnimate animate =>
            load_scripts rest (<[drop_last3 filename := animate]> m)
        | _ => load_scripts rest m
        end
      else load_scripts rest m
  end.

(** [scripts_dir] is [None] when the folder does not exist, and the listing
    of the folder otherwise.  [cosmic_animation] is the bound method
    registered as the built-in program. *)
Definition load_programs (cosmic_animation : Pattern)
    (scripts_dir : option (list (string * load_result))) (s : CosmicLED)
  : CosmicLED :=
  let m := <["cosmic" := cosmic_animation]> (programs s) in
  match scripts_dir with
  | Some files => set_programs (load_scripts files m) s
  | None => set_programs m s
  end.

(** ** [CosmicLED.run] *)

(** The readings of [time.time()] in one iteration of the loop, in the order
    of the calls, and whether Ctrl-C arrives at the end of the iteration, where
    the loop spends its idle time. *)
Record Tick : Type := mkTick {
  t_frame_start : Q;
  t_after_show : Q;
  t_fps_check : Q;
  t_fps_reset : Q;
  interrupted : bool
}.

(** The local variables of [run]. *)
Record Locals : Type := mkLocals {
  frame : Z;
  last_time : Q;
  frame_times : list Q
}.

Definition Qsum (l : list Q) : Q := foldr Qplus (0#1)%Q l.

(** [round(x, 1)]: to the nearest tenth, ties to the even tenth. *)
Definition round_half_even (q : Q) : Z :=
  let f := Qfloor q in
  let r := (q - inject_Z f)%Q in
  match (r ?= 1#2)%Q with
  | Lt => f
  | Gt => f + 1
  | Eq => if Z.even f then f else f + 1
  end.

Definition round1 (q : Q) : Q :=
  (inject_Z (round_half_even (q * inject_Z 10)) / inject_Z 10)%Q.

Definition Qgtb (a b : Q) : bool :=
  match (a ?= b)%Q with Gt => true | _ => false end.

Definition target_frame_time : Q := (1 # 60)%Q.

(** [frame_times.append(frame_time)], then [pop(0)] above 30 entries. *)
Definition push_frame_time (frame_time : Q) (l : list Q) : list Q :=
  let l1 := l ++ [frame_time] in
  if (30 <? length l1)%nat then tail l1 else l1.

Inductive StepResult : Type :=
| StepOk (s : CosmicLED) (l : Locals) (slept : option Q)
| StepRaise (e : exn) (s : CosmicLED).

(** One iteration of the body of [while self.running].  [slept] is the
    argument of the call of [time.sleep], [None] when it is not called. *)
Definition frame_step (tk : Tick) (s : CosmicLED) (l : Locals) : StepResult :=
  let invoked :=
    match (programs s !! current_program s : option Pattern) with
    | Some program => program (np_buf (pixels s)) (config s) (frame l)
    | None => (np_buf (pixels s), None)
    end in
  let s1 := set_pixels (np_set_buf (fst invoked) (pixels s)) s in
  match snd invoked with
  | Some e => StepRaise e s1
  | None =>
      let s2 := set_pixels (np_show (pixels s1)) s1 in
      let frame_time := (t_after_show tk - t_frame_start tk)%Q in
      let times := push_frame_time frame_time (frame_times l) in
      let fps_due := Qgtb (t_fps_check tk - last_time l)%Q (1#1)%Q in
      let st := stats s2 in
      let new_fps :=
        if fps_due then
          let avg_frame_time :=
            (Qsum times / inject_Z (Z.of_nat (length times)))%Q in
          if Qgtb avg_frame_time (0#1)%Q then round1 (/ avg_frame_time)%Q
          else (0#1)%Q
        else fps st in
      let new_last := if fps_due then t_fps_reset tk else last_time l in
      let s3 :=
        set_stats (mkStats new_fps (frame l) (uptime st)
                           (stats_current_program st) (last_update st)) s2 in
      let l' := mkLocals (frame l + 1) new_last times in
      let sleep_time := (target_frame_time - frame_time)%Q in
      if interrupted tk then StepRaise KeyboardInterrupt s3
      else if Qgtb sleep_time (0#1)%Q then StepOk s3 l' (Some sleep_time)
      else StepOk s3 l' None
  end.

(** How a call of [run] ends, observed over a finite list of ticks: the loop
    left and [run] returned, an exception left [run], or the ticks ran out
    with the loop still going. *)
Inductive RunResult : Type :=
| Returned (s : CosmicLED)
| Propagated (e : exn) (s : CosmicLED)
| StillRunning (s : CosmicLED) (l : Locals).

(** The [try] / [except KeyboardInterrupt] / [finally] around the loop:
    [cleanup] runs on every way out; only [KeyboardInterrupt] is handled. *)
Fixpoint run_loop (ticks : list Tick) (s : CosmicLED) (l : Locals)
  : RunResult :=
  if running s then
    match ticks with
    | [] => StillRunning s l
    | tk :: rest =>
        match frame_step tk s l with
        | StepOk s' l' _ => run_loop rest s' l'
        | StepRaise KeyboardInterrupt s' => Returned (cleanup s')
        | StepRaise e s' => Propagated e (cleanup s')
        end
    end
  else Returned (cleanup s).

(** [t0] is the reading of [time.time()] before the loop. *)
Definition run (t0 : Q) (ticks : list Tick) (s : CosmicLED) : RunResult :=
  run_loop ticks s (mkLocals 0 t0 []).

(** ** Colour math: [hsv_to_rgb] of [LB_Interface_work/test_color_math.py] *)

(** Python's [a % b] on floats: the result has the sign of [b]. *)
Definition Qmod (a b : Q) : Q := (a - b * inject_Z (Qfloor (a / b)))%Q.

(** [int(x)] on a float: truncation toward zero. *)
Definition Qtrunc (q : Q) : Z :=
  if Qle_bool (0#1) q then Qfloor q else Qceiling q.

Definition Qltb (a b : Q) : bool :=
  match (a ?= b)%Q with Lt => true | _ => false end.

(** The "fixed version", with [h] in degrees. *)
Definition hsv_to_rgb (h s v : Q) : rgb :=
  let h := Qmod h (360#1) in
  let c := (v * s)%Q in
  let x := (c * ((1#1) - Qabs (Qmod (h / (60#1)) (2#1) - (1#1))))%Q in
  let m := (v - c)%Q in
  let '(r, g, b) :=
    if Qltb h (60#1) then (c, x, (0#1)%Q)
    else if Qltb h (120#1) then (x, c, (0#1)%Q)
    else if Qltb h (180#1) then ((0#1)%Q, c, x)
    else if Qltb h (240#1) then ((0#1)%Q, x, c)
    else if Qltb h (300#1) then (x, (0#1)%Q, c)
    else (c, (0#1)%Q, x) in
  (Qtrunc ((r + m) * (255#1)), Qtrunc ((g + m) * (255#1)),
   Qtrunc ((b + m) * (255#1))).

(** The "original broken code" of the same file: six branches on
    [hue] in sixths of a turn, giving channels that are meant to lie in
    [[0,1]]. *)
Definition naive_hue_to_rgb (hue : Q) : Q * Q * Q :=
  if Qltb hue (1#1) then ((1#1), hue, (0#1))%Q
  else if Qltb hue (2#1) then ((2#1) - hue, (1#1), (0#1))%Q
  else if Qltb hue (3#1) then ((0#1), (1#1), hue - (2#1))%Q
  else if Qltb hue (4#1) then ((0#1), (4#1) - hue, (1#1))%Q
  else if Qltb hue (5#1) then (hue - (4#1), (0#1), (1#1))%Q
  else ((1#1), (0#1), (6#1) - hue)%Q.

(** ** Colour math of [CosmicLED.py] *)

(** [colorsys.hsv_to_rgb] of the Python standard library ([h] in turns), as
    [Lib/colorsys.py] defines it. *)
Definition colorsys_hsv_to_rgb (h s v : Q) : Q * Q * Q :=
  if Qeq_bool s (0#1) then (v, v, v)
  else
    let i := Qtrunc (h * (6#1)) in
    let f := (h * (6#1) - inject_Z i)%Q in
    let p := (v * ((1#1) - s))%Q in
    let q := (v * ((1#1) - s * f))%Q in
    let t := (v * ((1#1) - s * ((1#1) - f)))%Q in
    let i := i mod 6 in
    if i =? 0 then (v, t, p)
    else if i =? 1 then (q, v, p)
    else if i =? 2 then (p, v, t)
    else if i =? 3 then (p, q, v)
    else if i =? 4 then (t, p, v)
    else (v, p, q).

(** [CosmicLED.hsv_to_rgb] *)
Definition CosmicLED_hsv_to_rgb (h s v : Q) : rgb :=
  let '(r, g, b) := colorsys_hsv_to_rgb h s v in
  (Qtrunc (r * (255#1)), Qtrunc (g * (255#1)), Qtrunc (b * (255#1))).

(** What [pow(x, y)] gives on two floats: a float, a complex number (negative
    base, fractional exponent) or [ZeroDivisionError] (zero base, negative
    exponent). *)
Inductive pow_result : Type :=
| PowFloat (r : R)
| PowComplex
| PowZeroDivision.

Definition float_pow (x y : R) : pow_result :=
  if Rlt_dec 0 x then PowFloat (Rpower x y)
  else if Req_dec_T x 0 then
    if Rlt_dec 0 y then PowFloat 0%R
    else if Req_dec_T y 0 then PowFloat 1%R
    else PowZeroDivision
  else if Req_dec_T y (IZR (Int_part y)) then
    if Z.even (Int_part y) then PowFloat (Rpower (- x) y)
    else PowFloat (- Rpower (- x) y)%R
  else PowComplex.

(** [CosmicLED.gamma_correct]: [255 * pow(value / 255, gamma)] *)
Definition gamma_correct (value gamma : R) : pow_result :=
  match float_pow (value / 255)%R gamma with
  | PowFloat p => PowFloat (255 * p)%R
  | r => r
  end.

(** ** The coordinate mapper *)

Inductive topology : Type := Progressive | Serpentine.

Record MatrixGeometry : Type := mkGeometry {
  width : N;
  height : N;
  wiring : topology
}.

Definition pixel_count (g : MatrixGeometry) : Z :=
  Z.of_N (width g) * Z.of_N (height g).

Definition in_matrix (x y : Z) (g : MatrixGeometry) : bool :=
  (0 <=? x) && (x <? Z.of_N (width g)) && (0 <=? y) && (y <? Z.of_N (height g)).

(** Modelled from the spec: [Config.xy_to_index] lives in [config.py], which
    is not among the sources; only its callers and tests are.  Progressive
    wiring is [y*width + x]; serpentine wiring runs even rows left to right
    and odd rows right to left; a coordinate outside the matrix gives the
    out-of-bounds sentinel [None]. *)
Definition xy_to_index (x y : Z) (g : MatrixGeometry) : option Z :=
  if in_matrix x y g then
    let w := Z.of_N (width g) in
    match wiring g with
    | Progressive => Some (y * w + x)
    | Serpentine => Some (y * w + (if Z.even y then x else w - 1 - x))
    end
  else None.

(** Modelled from the spec: [Config.index_to_xy] of the missing [config.py],
    the inverse of [xy_to_index]: the row is the quotient by the width, the
    column the remainder, mirrored on odd rows of a serpentine matrix; an
    index outside [[0, pixel_count)] gives [None]. *)
Definition index_to_xy (index : Z) (g : MatrixGeometry) : option (Z * Z) :=
  if (0 <=? index) && (index <? pixel_count g) then
    let w := Z.of_N (width g) in
    let y := index / w in
    let c := index mod w in
    match wiring g with
    | Progressive => Some (c, y)
    | Serpentine => Some (if Z.even y then c else w - 1 - c, y)
    end
  else None.

(** ** Pattern functions *)

(** [pixels[i] = v] on a Python list: a negative subscript counts from the
    end, a subscript outside [[-len, len)] raises [IndexError]. *)
Definition setitem (pixels : list rgb) (i : Z) (v : rgb) : outcome (list rgb) :=
  let n := Z.of_nat (length pixels) in
  if (0 <=? i) && (i <? n) then Ok (<[Z.to_nat i := v]> pixels)
  else if (- n <=? i) && (i <? 0) then Ok (<[Z.to_nat (n + i) := v]> pixels)
  else Raise IndexError.

(** The buffer a pattern paints, with the subscripts it has assigned to so
    far, oldest first. *)
Record Canvas : Type := mkCanvas {
  cv_pixels : list rgb;
  cv_writes : list Z
}.

(** A [for] loop whose body may raise: the exception ends the loop and the
    canvas keeps the writes done before it. *)
Fixpoint for_each {A : Type} (body : A -> Canvas -> Canvas * option exn)
    (items : list A) (cv : Canvas) : Canvas * option exn :=
  match items with
  | [] => (cv, None)
  | a :: rest =>
      match body a cv with
      | (cv', None) => for_each body rest cv'
      | r => r
      end
  end.

(** [range(n)] *)
Definition range (n : Z) : list Z := map Z.of_nat (seq 0 (Z.to_nat n)).

(** What [range(v)] accepts: an [int] (or a [bool]); anything else raises
    [TypeError]. *)
Definition as_int (v : pyval) : outcome Z :=
  match v with
  | PInt z => Ok z
  | PBool b => Ok (if b then 1 else 0)
  | _ => Raise TypeError
  end.

(** [config.get(key, default)] of the dict-like configuration that
    [animations/cosmic.py] receives. *)
Definition config_get (c : Config) (key : string) (default : pyval) : pyval :=
  match c !! key with
  | Some v => v
  | None => default
  end.

Definition is_str (v : pyval) (s : string) : bool :=
  match v with
  | PStr t => String.eqb t s
  | _ => false
  end.

Definition write (i : Z) (v : rgb) (cv : Canvas) : Canvas * option exn :=
  match setitem (cv_pixels cv) i v with
  | Ok p => (mkCanvas p (cv_writes cv ++ [i]), None)
  | Raise e => (cv, Some e)
  end.

Section Patterns.

(** What the patterns take from outside: [config.xy_to_index(x, y)], which
    answers an [int] or [None]; the colour arithmetic of the pattern for the
    pixel at [(x, y)] in frame [frame] (the reads of [SCALE], [SPEED],
    [BRIGHTNESS], [INTENSITY], [GAMMA], the waves, the palette or the hue,
    [pow] and [int()]), which gives the colour or raises; and, for
    [animations/cosmic.py], the arithmetic on [speed] and [frame] that comes
    before its loops, which goes through or raises.  None of them touches the
    buffer. *)
Variable config_xy_to_index : Z -> Z -> option Z.
Variable colour : Z -> Z -> Z -> outcome rgb.
Variable setup : Config -> Z -> option exn.

(** [animate] of [animations/cosmic.py]: the colour is computed first, then
    the index is asked for and tested. *)
Definition cosmic_body (frame x y : Z) (cv : Canvas) : Canvas * option exn :=
  match colour x y frame with
  | Raise e => (cv, Some e)
  | Ok c =>
      match config_xy_to_index x y with
      | None => (cv, Some TypeError)
      | Some idx =>
          if (0 <=? idx) && (idx <? Z.of_nat (length (cv_pixels cv)))
          then write idx c cv
          else (cv, None)
      end
  end.

Definition cosmic_animate (pixels : list rgb) (cfg : Config) (frame : Z)
  : Canvas * option exn :=
  let cv := mkCanvas pixels [] in
  let hub75 := is_str (config_get cfg "matrix_type" PNone) "hub75" in
  let w := if hub75 then config_get cfg "hub75.cols" (PInt 64)
           else config_get cfg "ws2811.width" (PInt 10) in
  let h := if hub75 then config_get cfg "hub75.rows" (PInt 64)
           else config_get cfg "ws2811.height" (PInt 10) in
  match setup cfg frame with
  | Some e => (cv, Some e)
  | None =>
      match as_int h with
      | Raise e => (cv, Some e)
      | Ok height =>
          for_each (fun y cv1 =>
            match as_int w with
            | Raise e => (cv1, Some e)
            | Ok width =>
                for_each (fun x => cosmic_body frame x y) (range width) cv1
            end) (range height) cv
      end
  end.

(** [animate] of [scripts/waves.py]: the index is asked for first, a [None]
    skips the pixel, then the colour is computed and assigned. *)
Definition waves_body (frame x y : Z) (cv : Canvas) : Canvas * option exn :=
  match config_xy_to_index x y with
  | None => (cv, None)
  | Some i =>
      match colour x y frame with
      | Raise e => (cv, Some e)
      | Ok c => write i c cv
      end
  end.

Definition waves_animate (pixels : list rgb) (cfg : Config) (frame : Z)
  : Canvas * option exn :=
  let cv := mkCanvas pixels [] in
  match getattr cfg "MATRIX_HEIGHT" with
  | Raise e => (cv, Some e)
  | Ok hv =>
      match as_int hv with
      | Raise e => (cv, Some e)
      | Ok height =>
          for_each (fun y cv1 =>
            match getattr cfg "MATRIX_WIDTH" with
            | Raise e => (cv1, Some e)
            | Ok wv =>
                match as_int wv with
                | Raise e => (cv1, Some e)
                | Ok width =>
                    for_each (fun x => waves_body frame x y) (range width) cv1
                end
            end) (range height) cv
      end
  end.

End Patterns.

(** ** Concrete scenarios *)

Definition white : rgb := (255, 255, 255).

(** A program that paints every pixel white. *)
Definition paint_white : Pattern :=
  fun pixels _ _ => (replicate (length pixels) white, None).

(** A program that raises on every call, before writing anything. *)
Definition always_raises : Pattern :=
  fun pixels _ _ => (pixels, Some (OtherError "boom")).

Definition demo_config : Config :=
  <["BRIGHTNESS" := PFloat (1#2)]> (<["SPEED" := PInt 1]> ∅).

Definition demo_strip : NeoPixel :=
  mkNeoPixel (replicate 4%nat black) (PFloat (1#2)) [].

(** A strip whose brightness setter clamps a number to [[0, 1]] and raises
    [TypeError] for anything that is not a number. *)
Definition clamp_brightness (v : pyval) (p : NeoPixel) : outcome NeoPixel :=
  match v with
  | PFloat q =>
      Ok (mkNeoPixel (np_buf p) (PFloat (Qmin (Qmax q (0#1)) (1#1))) (np_log p))
  | PInt z =>
      Ok (mkNeoPixel (np_buf p)
            (if z <? 0 then PFloat (0#1)
             else if 1 <? z then PFloat (1#1) else PInt z) (np_log p))
  | PBool b => Ok (mkNeoPixel (np_buf p) (PBool b) (np_log p))
  | _ => Raise TypeError
  end.

(** A host in the manner of a plain Python object: [hasattr] holds for the
    data attributes and for [__class__] and [__dict__]; [setattr] stores a
    data attribute and raises [TypeError] for the two special names, which
    take a class and a dict only. *)
Definition is_special (key : string) : bool :=
  String.eqb key "__class__" || String.eqb key "__dict__".

Definition object_host : Host :=
  mkHost
    (fun c key => Ok (is_special key || bool_decide (is_Some (c !! key))))
    (fun c key v => if is_special key then Raise TypeError else Ok (<[key := v]> c))
    (fun c => getattr c "BRIGHTNESS")
    clamp_brightness.

Definition demo_programs : gmap string Pattern :=
  <["bad" := always_raises]> (<["cosmic" := paint_white]> ∅).

(** A running engine of four pixels whose active program is [current]. *)
Definition demo_engine (current : string) : CosmicLED :=
  mkCosmicLED demo_config true current demo_programs
    (mkStats (0#1) 0 0 current "") demo_strip.

(** A frame that takes one millisecond. *)
Definition quick_tick : Tick :=
  mkTick (0#1) (1#1000) (1#1000) (1#1000) false.

(** A frame that takes a tenth of a second. *)
Definition slow_tick : Tick :=
  mkTick (0#1) (1#10) (1#10) (1#10) false.

(** A frame at whose end Ctrl-C arrives. *)
Definition interrupt_tick : Tick :=
  mkTick (0#1) (1#1000) (1#1000) (1#1000) true.

(** The duration of the pause of an iteration: the argument of
    [time.sleep], and nothing when it is not called. *)
Definition sleep_duration (slept : option Q) : Q :=
  match slept with
  | Some d => d
  | None => (0#1)%Q
  end.

(** The claim of the design document on a failing program, for a run of the
    loop over [ticks]: the loop is still going, [frame_count] has advanced by
    the number of frames, and the built-in program is the active one. *)
Definition survives_failing_pattern (t0 : Q) (ticks : list Tick)
    (s : CosmicLED) : Prop :=
  exists s' l',
    run t0 ticks s = StillRunning s' l' /\
    frame_count (stats s') = frame_count (stats s) + Z.of_nat (length ticks) /\
    current_program s' = "cosmic".

(** The claim of the design document on an unregistered active name, for one
    iteration: the frame committed is the one the built-in program paints. *)
Definition renders_with_fallback (tk : Tick) (s : CosmicLED) (l : Locals)
  : Prop :=
  exists fallback s' l' slept,
    programs s !! "cosmic" = Some fallback /\
    frame_step tk s l = StepOk s' l' slept /\
    last (committed (np_log (pixels s'))) =
      Some (fst (fallback (np_buf (pixels s)) (config s) (frame l))).

(** The claim of the design document on configuration updates: the call
    hands the names of the rejected fields back. *)
Definition reports_rejected (h : Host) (new_config : list (string * pyval))
    (s : CosmicLED) (rejected : list string) : Prop :=
  fst (update_config h new_config s) = Ok (PList (map PStr rejected)).

(** The writes of a pattern stay inside a buffer of [n] pixels, and the
    buffer keeps its length. *)
Definition writes_within (n : nat) (cv : Canvas) : Prop :=
  Forall (fun i => 0 <= i < Z.of_nat n) (cv_writes cv) /\
  length (cv_pixels cv) = n.


(** A 2x2 matrix seen by [scripts/waves.py] and by [animations/cosmic.py]. *)
Definition waves_config : Config :=
  <["MATRIX_HEIGHT" := PInt 2]> (<["MATRIX_WIDTH" := PInt 2]> ∅).


Definition all_white (x y frame : Z) : outcome rgb := Ok white.

(** The arithmetic before the loops goes through. *)
Definition no_setup_error (cfg : Config) (frame : Z) : option exn := None.



(** ** [CosmicLED.__init__] and [CosmicLED.stats_writer] *)

(** [neopixel.NeoPixel(pin, n, brightness=b, auto_write=False)]: a strip of
    [n] dark pixels on which nothing has been shown yet. *)
Definition np_new (n : Z) (b : pyval) : NeoPixel :=
  mkNeoPixel (replicate (Z.to_nat n) black) b [].

(** The constructor, up to the start of the statistics thread.  [cfg] is the
    fresh [Config()], [now] the timestamp [datetime.now().isoformat()];
    reading [LED_COUNT] or [BRIGHTNESS] raises [AttributeError] when the
    attribute is missing. *)
Definition init (cfg : Config) (cosmic_animation : Pattern)
    (scripts_dir : option (list (string * load_result))) (now : string)
  : outcome CosmicLED :=
  match getattr cfg "LED_COUNT" with
  | Raise e => Raise e
  | Ok count =>
      match getattr cfg "BRIGHTNESS" with
      | Raise e => Raise e
      | Ok b =>
          match as_int count with
          | Raise e => Raise e
          | Ok n =>
              Ok (load_programs cosmic_animation scripts_dir
                    (mkCosmicLED cfg true "cosmic" ∅
                       (mkStats (0#1) 0 0 "cosmic" now) (np_new n b)))
          end
      end
  end.

(** One iteration of the loop of [stats_writer]: [now] is the reading of
    [time.time()], [stamp] the new timestamp.  The result is the controller
    and the dictionary handed to [json.dump]; an exception while writing the
    file is caught and changes nothing in the controller. *)
Definition stats_writer_step (start_time now : Q) (stamp : string)
    (s : CosmicLED) : CosmicLED * Stats :=
  let st := stats s in
  let st' := mkStats (fps st) (frame_count st) (Qtrunc (now - start_time))
                     (stats_current_program st) stamp in
  (set_stats st' s, st').

(** The calls the control surface makes on the controller. *)
Inductive api_call : Type :=
| CallSwitch (program_name : string)
| CallUpdate (new_config : list (string * pyval)).

Definition do_call (h : Host) (s : CosmicLED) (c : api_call) : CosmicLED :=
  match c with
  | CallSwitch program_name => snd (switch_program program_name s)
  | CallUpdate new_config => snd (update_config h new_config s)
  end.

(** The active name is a key of the registry and the status names it. *)
Definition consistent (s : CosmicLED) : Prop :=
  is_Some (programs s !! current_program s) /\
  stats_current_program (stats s) = current_program s.

(** The time a tick's render-and-commit work takes. *)
Definition elapsed (tk : Tick) : Q := (t_after_show tk - t_frame_start tk)%Q.

(** The last thirty entries of a list. *)
Definition window (l : list Q) : list Q := drop (length l - 30) l.

(** The answers of a mapping that fall inside a buffer of [n] pixels. *)
Definition in_buffer (n : nat) (answer : option Z) : list Z :=
  match answer with
  | Some idx => if (0 <=? idx) && (idx <? Z.of_nat n) then [idx] else []
  | None => []
  end.

(** What a pattern leaves of the buffer it was given: its length, and the
    colour of every pixel it did not assign to. *)
Definition keeps_unwritten (pixels : list rgb) (cv : Canvas) : Prop :=
  length (cv_pixels cv) = length pixels /\
  forall k : nat, Z.of_nat k ∉ cv_writes cv -> cv_pixels cv !! k = pixels !! k.

(** ** [CosmicLED.cosmic_animation], the built-in program *)

(** [colour cfg i frame] is the arithmetic of the method for pixel [i]: the
    reads of [SPEED], [LED_COUNT], [BRIGHTNESS] and [GAMMA], the hue wave,
    [hsv_to_rgb], [gamma_correct] and [int()].  It gives the colour or
    raises, and does not touch the buffer. *)
Definition cosmic_animation_body (colour : Config -> Z -> Z -> outcome rgb)
    (cfg : Config) (frame i : Z) (cv : Canvas) : Canvas * option exn :=
  match colour cfg i frame with
  | Raise e => (cv, Some e)
  | Ok c => write i c cv
  end.

Definition cosmic_animation (colour : Config -> Z -> Z -> outcome rgb)
    (pixels : list rgb) (cfg : Config) (frame : Z) : Canvas * option exn :=
  let cv := mkCanvas pixels [] in
  match getattr cfg "LED_COUNT" with
  | Raise e => (cv, Some e)
  | Ok count =>
      match as_int count with
      | Raise e => (cv, Some e)
      | Ok n => for_each (cosmic_animation_body colour cfg frame) (range n) cv
      end
  end.



(** ** [scripts/cleanup_deprecated.py]: what the cleaner archives *)

(** [self.keep_files] *)
Definition keep_files : list string :=
  ["scripts/install_rgb_matrix.sh"; "scripts/migrate_to_hub75.py";
   "scripts/migrate_to_optimized.py"; "scripts/cleanup_deprecated.py";
   "scripts/matrix_test.py"; "scripts/setup.sh"; "scripts/setup-minimal.sh"].

Definition optimized_dirs : list string :=
  ["core"; "drivers"; "web"; "animations"; "utils"; "hardware"].

(** [DeprecatedCodeCleaner._should_archive], on [str(item_path)]. *)
Definition should_archive (item_path : string) : bool :=
  if existsb (fun keep_pattern =>
                String.eqb item_path keep_pattern
                || endswith item_path keep_pattern) keep_files
  then false
  else if existsb (fun d => startswith item_path d) optimized_dirs
  then false
  else true.

(** ** [scripts/migrate_to_hub75.py]: the configuration migration *)

#[warnings="-register-all"]
Inductive json : Type :=
| JNull
| JBool (b : bool)
| JInt (z : Z)
| JFloat (q : Q)
| JStr (s : string)
| JArr (items : list json)
| JObj (fields : list (string * json)).

(** The settings file: absent, not loadable as JSON, or holding a JSON
    object. *)
Inductive settings_file : Type :=
| Missing
| Unreadable
| Settings (config : gmap string json).

(** The block the migration adds under ['hub75_settings']. *)
Definition hub75_defaults : json :=
  JObj [("rows", JInt 64); ("cols", JInt 64); ("chain_length", JInt 1);
        ("parallel", JInt 1); ("pwm_bits", JInt 11);
        ("pwm_lsb_nanoseconds", JInt 130); ("gpio_slowdown", JInt 4);
        ("limit_refresh", JInt 0); ("hardware_mapping", JStr "adafruit-hat");
        ("pixel_mapper", JStr ""); ("panel_type", JStr "");
        ("multiplexing", JInt 0); ("row_address_type", JInt 0);
        ("disable_hardware_pulsing", JBool false);
        ("show_refresh_rate", JBool false); ("inverse_colors", JBool false);
        ("led_rgb_sequence", JStr "RGB"); ("scan_mode", JInt 0);
        ("drop_privileges", JBool true)].

(** [migrate_config]: the value returned and the settings file afterwards.
    [write_fails] tells whether opening the file for writing raises; every
    exception is caught and turned into [False]. *)
Definition migrate_config (file : settings_file) (write_fails : bool)
  : bool * settings_file :=
  match file with
  | Unreadable => (false, file)
  | _ =>
      let config :=
        match file with
        | Settings c => c
        | _ => ∅
        end in
      if bool_decide (is_Some (config !! "hub75_settings")) then (true, file)
      else
        let config1 := <["hub75_settings" := hub75_defaults]> config in
        let config2 :=
          if bool_decide (is_Some (config1 !! "matrix_type")) then config1
          else <["matrix_type" := JStr "WS2811"]> config1 in
        if write_fails then (false, file) else (true, Settings config2)
  end.

(** ** Properties of [switch_program] *)

Lemma switch_program_registered (name : string) (s : CosmicLED) (p : Pattern) :
  programs s !! name = Some p ->
  switch_program name s =
    (true,
     mkCosmicLED (config s) (running s) name (programs s)
       (mkStats (fps (stats s)) (frame_count (stats s)) (uptime (stats s))
                name (last_update (stats s)))
       (pixels s)).
Proof. intros H. unfold switch_program. now rewrite H. Qed.

Lemma switch_program_unregistered (name : string) (s : CosmicLED) :
  programs s !! name = None -> switch_program name s = (false, s).
Proof. intros H. unfold switch_program. now rewrite H. Qed.

(** C10: [switch_program name] answers [True] exactly when [name] is a key
    of the registry; then the active program and the [current_program] entry
    of the status are [name] and nothing else moves; otherwise it answers
    [False] and the controller, status included, is what it was. *)
Theorem switch_program_iff_registered (name : string) (s : CosmicLED) :
  let r := switch_program name s in
  (fst r = true <-> is_Some (programs s !! name)) /\
  (fst r = true ->
     current_program (snd r) = name /\
     stats_current_program (stats (snd r)) = name /\
     config (snd r) = config s /\ running (snd r) = running s /\
     programs (snd r) = programs s /\ pixels (snd r) = pixels s /\
     fps (stats (snd r)) = fps (stats s) /\
     frame_count (stats (snd r)) = frame_count (stats s) /\
     uptime (stats (snd r)) = uptime (stats s) /\
     last_update (stats (snd r)) = last_update (stats s)) /\
  (fst r = false -> snd r = s).
Proof.
  destruct (programs s !! name) as [p|] eqn:E.
  - rewrite (switch_program_registered _ _ _ E). cbn.
    repeat split; eauto; discriminate.
  - rewrite (switch_program_unregistered _ _ E). cbn.
    repeat split; try discriminate; auto.
    intros [x Hx]. discriminate.
Qed.

Lemma switch_program_iff_registered_witness :
  fst (switch_program "bad" (demo_engine "cosmic")) = true /\
  current_program (snd (switch_program "bad" (demo_engine "cosmic"))) = "bad" /\
  snd (switch_program "nope" (demo_engine "cosmic")) = demo_engine "cosmic".
Proof.
  pose proof (switch_program_iff_registered "bad" (demo_engine "cosmic")) as Hb.
  pose proof (switch_program_iff_registered "nope" (demo_engine "cosmic")) as Hn.
  cbv zeta in Hb, Hn.
  destruct Hb as (_ & Hb & _). destruct Hn as (_ & _ & Hn).
  split; [reflexivity|]. split.
  - apply Hb. reflexivity.
  - apply Hn. reflexivity.
Defined.

(** Through [switch_program] the active name never leaves the registry. *)
Lemma switch_program_keeps_registered (name : string) (s : CosmicLED) :
  is_Some (programs s !! current_program s) ->
  let s' := snd (switch_program name s) in
  is_Some (programs s' !! current_program s').
Proof.
  intros Hreg. cbv zeta.
  destruct (programs s !! name) as [p|] eqn:E.
  - rewrite (switch_program_registered _ _ _ E). cbn. rewrite E. eauto.
  - rewrite (switch_program_unregistered _ _ E). exact Hreg.
Qed.

(** ** Properties of [update_config] *)

Lemma apply_items_app (h : Host) (a b : list (string * pyval)) (c : Config) :
  apply_items h (a ++ b) c =
    match apply_items h a c with
    | (c', None) => apply_items h b c'
    | r => r
    end.
Proof.
  revert c. induction a as [|[k v] a IH]; intros c; simpl; [reflexivity|].
  destruct (host_hasattr h c k) as [[|]|e]; [|apply IH|reflexivity].
  destruct (host_setattr h c k v) as [c'|e]; [apply IH|reflexivity].
Qed.

(** An update never hands anything back: when it returns, it returns [None]. *)
Lemma update_config_returns_None (h : Host) (upd : list (string * pyval))
    (s : CosmicLED) (v : pyval) :
  fst (update_config h upd s) = Ok v -> v = PNone.
Proof.
  unfold update_config.
  destruct (apply_items h upd (config s)) as [c [e|]]; [discriminate|].
  destruct (host_brightness h c) as [b|e]; [|discriminate].
  destruct (host_set_brightness h b _) as [p|e]; simpl; congruence.
Qed.

(** An unknown field does not count: the loop over an update with one
    unknown field [bad] and one existing field [good], in either order, does
    what the loop over [good] alone does. *)
Lemma apply_items_skips_unknown (h : Host) (c : Config) (bad good : string)
    (vb vg : pyval) (upd : list (string * pyval)) :
  host_hasattr h c bad = Ok false ->
  host_hasattr h c good = Ok true ->
  (forall c', host_setattr h c good vg = Ok c' ->
              host_hasattr h c' bad = Ok false) ->
  upd = [(bad, vb); (good, vg)] \/ upd = [(good, vg); (bad, vb)] ->
  apply_items h upd c = apply_items h [(good, vg)] c.
Proof.
  intros Hbad Hgood Hafter [-> | ->]; simpl.
  - now rewrite Hbad, Hgood.
  - rewrite Hgood. destruct (host_setattr h c good vg) as [c'|e] eqn:E;
      [|reflexivity].
    now rewrite (Hafter c' eq_refl).
Qed.

(** C5, the code's behaviour: an update with one unknown field [bad] (for
    which [hasattr] is false, before and after the other field is set) and
    one existing field [good], in either order, is the update with [good]
    alone: [bad] is skipped, never reported (when the call returns, it
    returns [None]) and never the cause of a failure.  When [setattr] on
    [good], the read of [BRIGHTNESS] and the brightness setter of the strip
    go through, the call returns [None], the configuration is the one
    [setattr] left, the strip the one its setter left, and nothing else has
    changed.  When the call raises, the exception is that of [setattr] on
    [good], of the read of [BRIGHTNESS] or of the brightness setter. *)
Theorem update_config_skips_unknown (h : Host) (s : CosmicLED)
    (bad good : string) (vb vg : pyval) (upd : list (string * pyval)) :
  host_hasattr h (config s) bad = Ok false ->
  host_hasattr h (config s) good = Ok true ->
  (forall c', host_setattr h (config s) good vg = Ok c' ->
              host_hasattr h c' bad = Ok false) ->
  upd = [(bad, vb); (good, vg)] \/ upd = [(good, vg); (bad, vb)] ->
  update_config h upd s = update_config h [(good, vg)] s /\
  (forall v, fst (update_config h upd s) = Ok v -> v = PNone) /\
  (forall c' b p,
     host_setattr h (config s) good vg = Ok c' ->
     host_brightness h c' = Ok b ->
     host_set_brightness h b (pixels s) = Ok p ->
     update_config h upd s =
       (Ok PNone,
        mkCosmicLED c' (running s) (current_program s) (programs s)
                    (stats s) p)) /\
  (forall e, fst (update_config h upd s) = Raise e ->
     host_setattr h (config s) good vg = Raise e \/
     exists c',
       host_setattr h (config s) good vg = Ok c' /\
       (host_brightness h c' = Raise e \/
        exists b, host_brightness h c' = Ok b /\
                  host_set_brightness h b (pixels s) = Raise e)).
Proof.
  intros Hbad Hgood Hafter Hupd.
  pose proof (apply_items_skips_unknown h (config s) bad good vb vg upd
                Hbad Hgood Hafter Hupd) as Hloop.
  assert (Hsame : update_config h upd s = update_config h [(good, vg)] s).
  { unfold update_config. now rewrite Hloop. }
  split; [exact Hsame|]. split; [apply update_config_returns_None|].
  rewrite Hsame. unfold update_config. simpl. rewrite Hgood. split.
  - intros c' b p Hset Hb Hp. rewrite Hset, Hb. cbn [pixels set_config].
    rewrite Hp. reflexivity.
  - intros e. destruct (host_setattr h (config s) good vg) as [c'|e'] eqn:Hset.
    + destruct (host_brightness h c') as [b|e'] eqn:Hb.
      * cbn [pixels set_config].
        destruct (host_set_brightness h b (pixels s)) as [p|e'] eqn:Hp;
          cbn [fst]; [discriminate|].
        intros H. injection H as ->. right. exists c'. split; [reflexivity|].
        right. exists b. now split.
      * cbn [fst]. intros H. injection H as ->. right. exists c'.
        split; [reflexivity|]. now left.
    + cbn [fst]. intros H. injection H as ->. now left.
Qed.

Lemma update_config_skips_unknown_witness :
  update_config object_host [("BOGUS", PInt 7); ("SPEED", PInt 2)]
    (demo_engine "cosmic")
  = (Ok PNone,
     mkCosmicLED (<["SPEED" := PInt 2]> demo_config) true "cosmic"
       demo_programs (mkStats (0#1) 0 0 "cosmic" "") demo_strip).
Proof.
  destruct (update_config_skips_unknown object_host (demo_engine "cosmic")
              "BOGUS" "SPEED" (PInt 7) (PInt 2)
              [("BOGUS", PInt 7); ("SPEED", PInt 2)])
    as (_ & _ & Hok & _).
  - reflexivity.
  - reflexivity.
  - intros c' H. injection H as <-. reflexivity.
  - left. reflexivity.
  - apply (Hok (<["SPEED" := PInt 2]> demo_config) (PFloat (1#2)) demo_strip);
      reflexivity.
Defined.

(** C5, as the design document states it, fails: the update below has one
    unknown and one valid field, and the call does not hand back the list
    naming the unknown one. *)
Lemma update_config_reports_nothing :
  ~ reports_rejected object_host [("BOGUS", PInt 7); ("SPEED", PInt 2)]
      (demo_engine "cosmic") ["BOGUS"].
Proof.
  unfold reports_rejected. intros H.
  apply update_config_returns_None in H. discriminate.
Qed.

(** On a host in the manner of a plain Python object, the value of
    [BRIGHTNESS] decides whether the update returns: a number above 1 is
    clamped by the strip, a string makes the strip's setter raise after the
    fields were set, and a special attribute raises in the loop. *)
Example update_config_on_object_host :
  np_brightness (pixels (snd (update_config object_host
                                [("BRIGHTNESS", PInt 5)] (demo_engine "cosmic"))))
    = PFloat (1#1) /\
  fst (update_config object_host
         [("BOGUS", PInt 7); ("BRIGHTNESS", PStr "high")] (demo_engine "cosmic"))
    = Raise TypeError /\
  update_config object_host
    [("__class__", PInt 5); ("SPEED", PInt 2)] (demo_engine "cosmic")
    = (Raise TypeError, demo_engine "cosmic").
Proof. repeat split. Qed.
(** ** Properties of [cleanup] *)

Lemma committed_app (l1 l2 : list SinkEvent) :
  committed (l1 ++ l2) = committed l1 ++ committed l2.
Proof.
  induction l1 as [|[f|] l1 IH]; simpl; [reflexivity| |assumption].
  now rewrite IH.
Qed.

Lemma cleanup_log (s : CosmicLED) :
  np_log (pixels (cleanup s)) =
    np_log (pixels s)
      ++ [Committed (replicate (length (np_buf (pixels s))) black); Released].
Proof.
  unfold cleanup. cbn. now rewrite <- app_assoc.
Qed.

(** Every way out of [run] goes through [cleanup]. *)
Lemma run_loop_ends_in_cleanup (ticks : list Tick) (s : CosmicLED) (l : Locals)
    (r : RunResult) :
  run_loop ticks s l = r ->
  match r with
  | Returned s' | Propagated _ s' => exists s0, s' = cleanup s0
  | StillRunning _ _ => True
  end.
Proof.
  revert s l. induction ticks as [|tk rest IH]; intros s l; simpl.
  - destruct (running s); intros <-; eauto.
  - destruct (running s); [|intros <-; eauto].
    destruct (frame_step tk s l) as [s1 l1 sl|e s1].
    + apply IH.
    + destruct e; intros <-; eauto.
Qed.

(** C8: shutdown ([cleanup], which every way out of [run] calls) blanks the
    buffer, commits exactly one frame, all zeros, and only then releases the
    strip: the last frame ever committed is the all-zero one, and the engine
    is no longer running. *)
Theorem cleanup_commits_final_black_frame (s : CosmicLED) :
  let zeros := replicate (length (np_buf (pixels s))) black in
  np_log (pixels (cleanup s)) = np_log (pixels s) ++ [Committed zeros; Released] /\
  last (committed (np_log (pixels (cleanup s)))) = Some zeros /\
  np_buf (pixels (cleanup s)) = zeros /\
  running (cleanup s) = false /\
  (forall ticks l s',
     run_loop ticks s l = Returned s' \/
     (exists e, run_loop ticks s l = Propagated e s') ->
     exists frame,
       last (committed (np_log (pixels s'))) = Some frame /\
       Forall (fun px => px = black) frame /\
       last (np_log (pixels s')) = Some Released).
Proof.
  cbv zeta. repeat split.
  - apply cleanup_log.
  - rewrite cleanup_log, committed_app. simpl. apply last_snoc.
  - intros ticks l s' H.
    assert (Hc : exists s0, s' = cleanup s0).
    { destruct H as [H | [e H]];
        apply run_loop_ends_in_cleanup in H; exact H. }
    destruct Hc as [s0 ->].
    exists (replicate (length (np_buf (pixels s0))) black).
    rewrite cleanup_log. repeat split.
    + rewrite committed_app. simpl. apply last_snoc.
    + apply Forall_forall. intros x Hx.
      apply elem_of_replicate in Hx. tauto.
    + change [Committed (replicate (length (np_buf (pixels s0))) black); Released]
        with ([Committed (replicate (length (np_buf (pixels s0))) black)] ++ [Released]).
      rewrite app_assoc. apply last_snoc.
Qed.

Lemma cleanup_commits_final_black_frame_witness :
  exists frame,
    last (committed (np_log (pixels (cleanup (demo_engine "bad"))))) = Some frame /\
    Forall (fun px => px = black) frame /\
    last (np_log (pixels (cleanup (demo_engine "bad")))) = Some Released.
Proof.
  destruct (cleanup_commits_final_black_frame (demo_engine "bad"))
    as (_ & _ & _ & _ & H).
  apply (H [quick_tick] (mkLocals 0 (0#1) [])).
  right. exists (OtherError "boom"). reflexivity.
Defined.

(** ** Properties of the render loop *)

Lemma Qgtb_true (a b : Q) : Qgtb a b = true <-> (b < a)%Q.
Proof.
  unfold Qgtb. rewrite Qgt_alt.
  destruct (a ?= b)%Q; split; congruence.
Qed.

Lemma Qgtb_false (a b : Q) : Qgtb a b = false <-> (a <= b)%Q.
Proof.
  unfold Qgtb. rewrite Qle_alt.
  destruct (a ?= b)%Q; split; congruence.
Qed.

(** What an iteration that completes leaves behind. *)
Lemma frame_step_ok (tk : Tick) (s s' : CosmicLED) (l l' : Locals)
    (slept : option Q) :
  frame_step tk s l = StepOk s' l' slept ->
  let painted :=
    match (programs s !! current_program s : option Pattern) with
    | Some program => fst (program (np_buf (pixels s)) (config s) (frame l))
    | None => np_buf (pixels s)
    end in
  np_buf (pixels s') = painted /\
  np_log (pixels s') = np_log (pixels s) ++ [Committed painted] /\
  frame_count (stats s') = frame l /\ frame l' = frame l + 1 /\
  current_program s' = current_program s /\ programs s' = programs s /\
  running s' = running s /\ config s' = config s /\
  slept = (let sleep_time :=
             (target_frame_time - (t_after_show tk - t_frame_start tk))%Q in
           if Qgtb sleep_time (0#1)%Q then Some sleep_time else None).
Proof.
  unfold frame_step.
  destruct (programs s !! current_program s) as [p|]; cbn zeta.
  - destruct (p (np_buf (pixels s)) (config s) (frame l)) as [b [e|]];
      cbn [fst snd]; [discriminate|].
    destruct (interrupted tk); [discriminate|].
    destruct (Qgtb _ _); intros H; injection H as <- <- <-; cbn;
      repeat split; reflexivity.
  - cbn [fst snd].
    destruct (interrupted tk); [discriminate|].
    destruct (Qgtb _ _); intros H; injection H as <- <- <-; cbn;
      repeat split; reflexivity.
Qed.

(** C9: in every iteration of the loop that completes, the pause after the
    frame is committed lasts [max(0, target - elapsed)], where the target is
    one sixtieth of a second and [elapsed] is the time measured from the
    start of the iteration to the return of [show()]. *)
Theorem frame_step_sleeps_remaining_time (tk : Tick) (s s' : CosmicLED)
    (l l' : Locals) (slept : option Q) :
  frame_step tk s l = StepOk s' l' slept ->
  let elapsed := (t_after_show tk - t_frame_start tk)%Q in
  (target_frame_time == 1 / 60)%Q /\
  (sleep_duration slept == Qmax 0 (target_frame_time - elapsed))%Q.
Proof.
  intros H. apply frame_step_ok in H. cbv zeta in H.
  destruct H as (_ & _ & _ & _ & _ & _ & _ & _ & ->).
  cbv zeta. split; [reflexivity|].
  destruct (Qgtb _ _) eqn:E; simpl.
  - apply Qgtb_true in E. symmetry. apply Q.max_r. now apply Qlt_le_weak.
  - apply Qgtb_false in E. symmetry. now apply Q.max_l.
Qed.

Lemma frame_step_sleeps_remaining_time_witness :
  (sleep_duration (Some (target_frame_time - ((1#1000) - (0#1))))
     == Qmax 0 (target_frame_time - ((1#1000) - (0#1))))%Q /\
  (sleep_duration None == Qmax 0 (target_frame_time - ((1#10) - (0#1))))%Q.
Proof.
  split.
  - eapply (frame_step_sleeps_remaining_time quick_tick (demo_engine "cosmic")
              _ (mkLocals 0 (0#1) [])).
    reflexivity.
  - eapply (frame_step_sleeps_remaining_time slow_tick (demo_engine "cosmic")
              _ (mkLocals 0 (0#1) [])).
    reflexivity.
Defined.

(** An iteration whose program raises stops before [show()]: nothing is
    committed and the statistics are not touched. *)
Lemma frame_step_program_raises (tk : Tick) (s : CosmicLED) (l : Locals)
    (p : Pattern) (buf' : list rgb) (e : exn) :
  programs s !! current_program s = Some p ->
  p (np_buf (pixels s)) (config s) (frame l) = (buf', Some e) ->
  frame_step tk s l = StepRaise e (set_pixels (np_set_buf buf' (pixels s)) s).
Proof.
  intros Hp Hr. unfold frame_step. rewrite Hp, Hr. reflexivity.
Qed.

(** C1, the code's behaviour: an exception (other than Ctrl-C) raised by the
    active program in its per-frame call is not caught.  The loop ends in
    that iteration, whatever ticks remain; [cleanup] blanks and releases the
    strip; the exception leaves [run]; the active program is the one that
    failed and the statistics, [frame_count] included, are what they were
    before the frame. *)
Theorem failing_pattern_ends_run (tk : Tick) (rest : list Tick)
    (s : CosmicLED) (l : Locals) (p : Pattern) (buf' : list rgb) (e : exn) :
  running s = true ->
  programs s !! current_program s = Some p ->
  p (np_buf (pixels s)) (config s) (frame l) = (buf', Some e) ->
  e <> KeyboardInterrupt ->
  exists s',
    run_loop (tk :: rest) s l = Propagated e s' /\
    running s' = false /\
    current_program s' = current_program s /\
    programs s' = programs s /\
    stats s' = stats s /\
    np_log (pixels s') =
      np_log (pixels s) ++ [Committed (replicate (length buf') black); Released].
Proof.
  intros Hrun Hp Hr He.
  exists (cleanup (set_pixels (np_set_buf buf' (pixels s)) s)).
  split.
  - simpl. rewrite Hrun, (frame_step_program_raises _ _ _ _ _ _ Hp Hr).
    destruct e; congruence.
  - rewrite cleanup_log. repeat split.
Qed.

Lemma failing_pattern_ends_run_witness :
  exists s',
    run_loop [quick_tick; quick_tick; quick_tick] (demo_engine "bad")
             (mkLocals 0 (0#1) []) = Propagated (OtherError "boom") s' /\
    running s' = false /\
    current_program s' = "bad" /\
    frame_count (stats s') = 0.
Proof.
  destruct (failing_pattern_ends_run quick_tick [quick_tick; quick_tick]
              (demo_engine "bad") (mkLocals 0 (0#1) []) always_raises
              (replicate 4%nat black) (OtherError "boom"))
    as (s' & Hrun & Hoff & Hcur & _ & Hst & _).
  - reflexivity.
  - reflexivity.
  - reflexivity.
  - discriminate.
  - exists s'. rewrite Hst. repeat split; assumption.
Defined.

(** C1, as the design document states it, fails: with a program that raises
    on every call as the active one, three frames later the loop is not
    running with [frame_count] advanced by three and the built-in program
    active. *)
Lemma failing_pattern_not_survived :
  ~ survives_failing_pattern (0#1) [quick_tick; quick_tick; quick_tick]
      (demo_engine "bad").
Proof.
  intros (s' & l' & H & _).
  vm_compute in H. discriminate.
Qed.

(** The statistics after frames that complete: [frame_count] is the index of
    the last frame rendered, one less than the number of frames. *)
Lemma run_loop_frame_count (ticks : list Tick) (s s' : CosmicLED)
    (l l' : Locals) :
  run_loop ticks s l = StillRunning s' l' ->
  frame l' = frame l + Z.of_nat (length ticks) /\
  (ticks <> [] -> frame_count (stats s') = frame l' - 1).
Proof.
  revert s l. induction ticks as [|tk rest IH]; intros s l; simpl.
  - destruct (running s); [|discriminate].
    intros H. injection H as <- <-. split; [lia|congruence].
  - destruct (running s); [|discriminate].
    destruct (frame_step tk s l) as [s1 l1 sl|e s1] eqn:E.
    + intros H. pose proof (IH _ _ H) as [Hf Hc].
      apply frame_step_ok in E. cbv zeta in E.
      destruct E as (_ & _ & Hfc & Hfl & _).
      split; [lia|]. intros _.
      destruct rest as [|tk2 rest2].
      * simpl in H. destruct (running s1); [|discriminate].
        injection H as <- <-. lia.
      * apply Hc. discriminate.
    + destruct e; discriminate.
Qed.

(** ** The registry and an unregistered active name *)

Lemma load_scripts_keeps (files : list (string * load_result))
    (m : gmap string Pattern) (key : string) :
  is_Some (m !! key) -> is_Some (load_scripts files m !! key).
Proof.
  revert m. induction files as [|[f r] rest IH]; intros m Hm; simpl; [exact Hm|].
  destruct (endswith f ".py" && negb (startswith f "__")); [|now apply IH].
  destruct r; try (now apply IH).
  apply IH. destruct (decide (drop_last3 f = key)) as [->|Hne].
  - rewrite lookup_insert_eq. eauto.
  - now rewrite lookup_insert_ne.
Qed.

Lemma load_programs_registers_cosmic (builtin : Pattern)
    (scripts_dir : option (list (string * load_result))) (s : CosmicLED) :
  is_Some (programs (load_programs builtin scripts_dir s) !! "cosmic").
Proof.
  unfold load_programs. destruct scripts_dir as [files|]; cbn.
  - apply load_scripts_keeps. rewrite lookup_insert_eq. eauto.
  - rewrite lookup_insert_eq. eauto.
Qed.

Lemma append_cons (a : Ascii.ascii) (s t : string) :
  String a s +:+ t = String a (s +:+ t).
Proof. reflexivity. Qed.

Lemma substring_full (s : string) : String.substring 0 (String.length s) s = s.
Proof. induction s as [|a s IH]; simpl; [reflexivity|]. now rewrite IH. Qed.

Lemma substring_split (n : nat) (s : string) :
  (n <= String.length s)%nat ->
  s = (String.substring 0 n s +:+ String.substring n (String.length s - n) s).
Proof.
  revert s. induction n as [|n IH]; intros s Hn.
  - rewrite Nat.sub_0_r, substring_full. now destruct s.
  - destruct s as [|a s]; simpl in Hn; [lia|].
    simpl. rewrite append_cons. f_equal. apply IH. lia.
Qed.

Lemma endswith_split (s suffix : string) :
  endswith s suffix = true ->
  s = (String.substring 0 (String.length s - String.length suffix) s +:+ suffix).
Proof.
  unfold endswith. intros H. apply andb_true_iff in H. destruct H as [Hle Heq].
  apply Nat.leb_le in Hle. apply String.eqb_eq in Heq.
  rewrite (substring_split (String.length s - String.length suffix) s) at 1 by lia.
  replace (String.length s - (String.length s - String.length suffix))%nat
    with (String.length suffix) by lia.
  now rewrite Heq.
Qed.

Lemma load_scripts_app (a b : list (string * load_result))
    (m : gmap string Pattern) :
  load_scripts (a ++ b) m = load_scripts b (load_scripts a m).
Proof.
  revert m. induction a as [|[f r] a IH]; intros m; simpl; [reflexivity|].
  destruct (endswith f ".py" && negb (startswith f "__")); [|apply IH].
  destruct r; apply IH.
Qed.

Lemma load_scripts_provenance_aux (files : list (string * load_result))
    (m : gmap string Pattern) (name : string) (p : Pattern) :
  load_scripts files m !! name = Some p ->
  m !! name = Some p \/
  exists f,
    (f, HasAnimate p) ∈ files /\ f = (name +:+ ".py") /\
    startswith f "__" = false.
Proof.
  revert m. induction files as [|[f r] rest IH]; intros m; simpl; [now left|].
  assert (Hrest : load_scripts rest m !! name = Some p ->
                  m !! name = Some p \/
                  exists f0, (f0, HasAnimate p) ∈ (f, r) :: rest /\
                             f0 = (name +:+ ".py") /\
                             startswith f0 "__" = false).
  { intros H. destruct (IH _ H) as [?|(f0 & Hin & ? & ?)]; [now left|].
    right. exists f0. split; [now right|]. now split. }
  destruct (endswith f ".py" && negb (startswith f "__")) eqn:El; [|exact Hrest].
  destruct r as [| |animate]; try exact Hrest.
  intros H. destruct (IH _ H) as [Hm|(f0 & Hin & ? & ?)].
  - destruct (decide (drop_last3 f = name)) as [Heq|Hne].
    + rewrite Heq, lookup_insert_eq in Hm. injection Hm as ->.
      right. exists f. apply andb_true_iff in El. destruct El as [Hpy Hdun].
      split; [left|]. split.
      * rewrite <- Heq. apply (endswith_split f ".py" Hpy).
      * now apply negb_true_iff.
    + rewrite lookup_insert_ne in Hm by exact Hne. now left.
  - right. exists f0. split; [now right|]. now split.
Qed.

(** What ["cosmic"] is bound to after [load_programs]: the [animate] of a
    script [cosmic.py] at the end of the listing; the built-in animation
    when the listing holds no file of that name, or when there is no scripts
    folder; and in every case the built-in animation or the [animate] of a
    listed [cosmic.py]. *)
Lemma cosmic_binding (builtin : Pattern) (s : CosmicLED) :
  (forall p files,
     programs (load_programs builtin
                 (Some (files ++ [("cosmic.py", HasAnimate p)])) s) !! "cosmic"
       = Some p) /\
  (forall files,
     (forall r, (("cosmic.py")%string, r) ∉ files) ->
     programs (load_programs builtin (Some files) s) !! "cosmic" = Some builtin) /\
  programs (load_programs builtin None s) !! "cosmic" = Some builtin /\
  (forall files q,
     programs (load_programs builtin (Some files) s) !! "cosmic" = Some q ->
     q = builtin \/ (("cosmic.py")%string, HasAnimate q) ∈ files).
Proof.
  assert (Hprov : forall files q,
     programs (load_programs builtin (Some files) s) !! "cosmic" = Some q ->
     q = builtin \/ (("cosmic.py")%string, HasAnimate q) ∈ files).
  { intros files q E. unfold load_programs in E. cbn [programs set_programs] in E.
    destruct (load_scripts_provenance_aux _ _ _ _ E) as [Hm|(f & Hin & -> & _)].
    - rewrite lookup_insert_eq in Hm. left. congruence.
    - right. exact Hin. }
  split; [|split; [|split]].
  - intros p files. unfold load_programs. cbn [programs set_programs].
    rewrite load_scripts_app. simpl. apply lookup_insert_eq.
  - intros files Hno.
    destruct (load_programs_registers_cosmic builtin (Some files) s) as [q E].
    rewrite E. destruct (Hprov files q E) as [-> | Hin]; [reflexivity|].
    exfalso. exact (Hno _ Hin).
  - unfold load_programs. cbn. apply lookup_insert_eq.
  - exact Hprov.
Qed.

Example load_scripts_filters_files :
  let m := load_scripts [("waves.py", HasAnimate paint_white);
                         ("__init__.py", HasAnimate paint_white);
                         ("notes.txt", HasAnimate paint_white);
                         ("broken.py", LoadError);
                         ("empty.py", NoAnimate)] ∅ in
  is_Some (m !! "waves") /\ m !! "__init__" = None /\ m !! "notes" = None /\
  m !! "broken" = None /\ m !! "empty" = None.
Proof. cbv zeta. split; [eexists; reflexivity | repeat split]. Qed.

(** Ctrl-C is the one exception [run] handles: it returns after [cleanup]. *)
Example ctrl_c_returns_after_cleanup :
  exists s',
    run (0#1) [quick_tick; interrupt_tick; quick_tick] (demo_engine "cosmic")
      = Returned s' /\
    running s' = false /\
    committed (np_log (pixels s')) =
      [replicate 4%nat white; replicate 4%nat white; replicate 4%nat black].
Proof. eexists. split; [reflexivity|]. split; reflexivity. Qed.

(** C2, the code's behaviour: while the active name is not a key of the
    registry, an iteration calls no program at all, the built-in one
    included: it commits the buffer as it stands, frame after frame, and the
    active name stays what it is.  As for the registry, every
    [load_programs] leaves a program under the name ["cosmic"]: the built-in
    animation when there is no scripts folder or when the folder holds no
    file [cosmic.py]; the [animate] of a script [cosmic.py] that closes the
    listing, which takes the name from the built-in animation; and never
    anything but the built-in animation or the [animate] of a listed
    [cosmic.py]. *)
Theorem unregistered_program_paints_nothing (ticks : list Tick)
    (s : CosmicLED) (l : Locals) :
  running s = true ->
  programs s !! current_program s = None ->
  Forall (fun tk => interrupted tk = false) ticks ->
  (exists s' l',
     run_loop ticks s l = StillRunning s' l' /\
     committed (np_log (pixels s')) =
       committed (np_log (pixels s))
         ++ replicate (length ticks) (np_buf (pixels s)) /\
     np_buf (pixels s') = np_buf (pixels s) /\
     current_program s' = current_program s /\
     programs s' = programs s) /\
  (forall builtin scripts_dir s0,
     is_Some (programs (load_programs builtin scripts_dir s0) !! "cosmic")) /\
  (forall builtin s0,
     programs (load_programs builtin None s0) !! "cosmic" = Some builtin) /\
  (forall builtin files s0,
     (forall r, (("cosmic.py")%string, r) ∉ files) ->
     programs (load_programs builtin (Some files) s0) !! "cosmic"
       = Some builtin) /\
  (forall builtin p files s0,
     programs (load_programs builtin
                 (Some (files ++ [("cosmic.py", HasAnimate p)])) s0) !! "cosmic"
       = Some p) /\
  (forall builtin files s0 q,
     programs (load_programs builtin (Some files) s0) !! "cosmic" = Some q ->
     q = builtin \/ (("cosmic.py")%string, HasAnimate q) ∈ files).
Proof.
  intros Hrun Hnone Hint. split.
  2:{ split; [apply load_programs_registers_cosmic|].
      split; [intros b s0; apply (cosmic_binding b s0)|].
      split; [intros b files s0; apply (cosmic_binding b s0)|].
      split; [intros b p files s0; apply (cosmic_binding b s0)|].
      intros b files s0; apply (cosmic_binding b s0). }
  revert s l Hrun Hnone.
  induction Hint as [|tk rest Htk _ IH]; intros s l Hrun Hnone.
  - exists s, l. simpl. rewrite Hrun, app_nil_r. repeat split.
  - simpl. rewrite Hrun.
    destruct (frame_step tk s l) as [s1 l1 sl|e s1] eqn:E.
    + apply frame_step_ok in E. cbv zeta in E. rewrite Hnone in E.
      destruct E as (Hb & Hlog & _ & _ & Hcur & Hprog & Hr1 & _).
      destruct (IH s1 l1) as (s' & l' & Hloop & Hcom & Hbuf & Hc & Hp).
      * congruence.
      * congruence.
      * exists s', l'. split; [exact Hloop|].
        rewrite Hcom, Hbuf, Hc, Hp, Hlog, Hb, Hcur, Hprog, committed_app.
        simpl. rewrite <- app_assoc. repeat split.
    + exfalso. unfold frame_step in E. rewrite Hnone in E. cbn in E.
      rewrite Htk in E. destruct (Qgtb _ _); discriminate.
Qed.

Lemma unregistered_program_paints_nothing_witness :
  exists s' l',
    run_loop [quick_tick; quick_tick] (demo_engine "ghost")
             (mkLocals 0 (0#1) []) = StillRunning s' l' /\
    committed (np_log (pixels s')) =
      [replicate 4%nat black; replicate 4%nat black].
Proof.
  destruct (unregistered_program_paints_nothing [quick_tick; quick_tick]
              (demo_engine "ghost") (mkLocals 0 (0#1) []))
    as ((s' & l' & Hloop & Hcom & _) & _).
  - reflexivity.
  - reflexivity.
  - repeat constructor.
  - exists s', l'. split; [exact Hloop | exact Hcom].
Defined.

(** C2, as the design document states it, fails: with the unregistered name
    ["ghost"] active, the frame committed is not the one the built-in program
    paints (all white here) but the untouched buffer. *)
Lemma unregistered_program_no_fallback :
  ~ renders_with_fallback quick_tick (demo_engine "ghost")
      (mkLocals 0 (0#1) []).
Proof.
  intros (fb & s' & l' & sl & Hfb & Hstep & Hlast).
  apply frame_step_ok in Hstep. cbv zeta in Hstep.
  destruct Hstep as (_ & Hlog & _).
  rewrite Hlog in Hlast.
  assert (Hw : Some paint_white = Some fb) by (rewrite <- Hfb; reflexivity).
  injection Hw as <-.
  vm_compute in Hlast. discriminate.
Qed.

(** ** Range of the HSV conversions *)

(** [a % b] lies in [[0, b)] for a positive [b]. *)
Lemma Qmod_bounds (a b : Q) : (0 < b)%Q -> (0 <= Qmod a b /\ Qmod a b < b)%Q.
Proof.
  intros Hb. unfold Qmod.
  pose proof (Qfloor_le (a / b)) as Hlo.
  pose proof (Qlt_floor (a / b)) as Hhi.
  rewrite inject_Z_plus in Hhi.
  set (k := inject_Z (Qfloor (a / b))) in *.
  assert (Hab : (a == (a / b) * b)%Q) by (field; Lqa.lra).
  set (d := (a / b)%Q) in *.
  change (inject_Z 1) with (1#1)%Q in Hhi.
  split.
  - rewrite Hab. Lqa.nra.
  - rewrite Hab. Lqa.nra.
Qed.

Lemma Qtrunc_bounds (q : Q) (n : Z) :
  0 <= n -> (0 <= q)%Q -> (q <= inject_Z n)%Q -> 0 <= Qtrunc q <= n.
Proof.
  intros Hn Hq Hle. unfold Qtrunc.
  assert (E : Qle_bool (0#1) q = true) by now apply Qle_bool_iff.
  rewrite E. split.
  - apply (Qfloor_resp_le (inject_Z 0) q). exact Hq.
  - rewrite <- (Qfloor_Z n). now apply Qfloor_resp_le.
Qed.

Lemma channel_in_range (ch m : Q) :
  (0 <= ch + m)%Q -> (ch + m <= 1)%Q ->
  0 <= Qtrunc ((ch + m) * (255#1)) <= 255.
Proof.
  intros Hlo Hhi. apply Qtrunc_bounds; [lia| |].
  - Lqa.nra.
  - change (inject_Z 255) with (255#1)%Q. Lqa.nra.
Qed.

(** The bound does not depend on the hue: [h % 360] brings any hue into
    [[0, 360)]. *)
Lemma hsv_to_rgb_bounds (h s v : Q) :
  (0 <= s)%Q -> (s <= 1)%Q -> (0 <= v)%Q -> (v <= 1)%Q ->
  let '(r, g, b) := hsv_to_rgb h s v in
  0 <= r <= 255 /\ 0 <= g <= 255 /\ 0 <= b <= 255.
Proof.
  intros Hs0 Hs1 Hv0 Hv1. unfold hsv_to_rgb.
  set (h' := Qmod h (360#1)).
  set (c := (v * s)%Q).
  set (w := Qabs (Qmod (h' / (60#1)) (2#1) - (1#1))).
  set (x := (c * ((1#1) - w))%Q).
  set (m := (v - c)%Q).
  assert (Hc : (0 <= c /\ c <= v)%Q) by (unfold c; split; Lqa.nra).
  assert (Hw : (0 <= w /\ w <= 1)%Q).
  { unfold w. split; [apply Qabs_nonneg|].
    apply Qabs_Qle_condition.
    destruct (Qmod_bounds (h' / (60#1)) (2#1)) as [H0 H2]; [reflexivity|].
    split; Lqa.lra. }
  assert (Hx : (0 <= x /\ x <= c)%Q) by (unfold x; split; Lqa.nra).
  assert (Hcm : (0 <= c + m /\ c + m <= 1)%Q) by (unfold m; split; Lqa.lra).
  assert (Hxm : (0 <= x + m /\ x + m <= 1)%Q) by (unfold m; split; Lqa.lra).
  assert (H0m : (0 <= (0#1) + m /\ (0#1) + m <= 1)%Q) by (unfold m; split; Lqa.lra).
  destruct Hcm, Hxm, H0m.
  repeat match goal with
         | |- context [if ?b then _ else _] => destruct b
         end;
    repeat split; apply channel_in_range; assumption.
Qed.

Example hsv_red : hsv_to_rgb (0#1) (1#1) (1#1) = (255, 0, 0).
Proof. reflexivity. Qed.
Example hsv_yellow_boundary : hsv_to_rgb (60#1) (1#1) (1#1) = (255, 255, 0).
Proof. reflexivity. Qed.
Example hsv_blue : hsv_to_rgb (240#1) (1#1) (1#1) = (0, 0, 255).
Proof. reflexivity. Qed.
Example hsv_half : hsv_to_rgb (359#1) (1#2) (1#2) = (127, 63, 64).
Proof. vm_compute. reflexivity. Qed.

(** The six-branch formula the file calls broken does leave the range: a
    hue above six sixths gives a negative blue channel. *)
Lemma naive_hue_negative_channel :
  let '(r, g, b) := naive_hue_to_rgb (13#2) in (b < 0)%Q.
Proof. reflexivity. Qed.

(** C3: for a hue in [[0, 360)] and saturation and value in [[0, 1]], each of
    the three channels [hsv_to_rgb] returns lies in [[0, 255]]. *)
Theorem hsv_to_rgb_in_range (h s v : Q) :
  (0 <= h)%Q -> (h < 360)%Q ->
  (0 <= s)%Q -> (s <= 1)%Q -> (0 <= v)%Q -> (v <= 1)%Q ->
  let '(r, g, b) := hsv_to_rgb h s v in
  0 <= r <= 255 /\ 0 <= g <= 255 /\ 0 <= b <= 255.
Proof. intros _ _. apply hsv_to_rgb_bounds. Qed.

Lemma hsv_to_rgb_in_range_witness :
  let '(r, g, b) := hsv_to_rgb (359#1) (1#2) (1#2) in
  0 <= r <= 255 /\ 0 <= g <= 255 /\ 0 <= b <= 255.
Proof. apply hsv_to_rgb_in_range; Lqa.lra. Defined.

(** The conversion of [CosmicLED.py], through [colorsys], stays in range as
    well for a hue that is not negative. *)
Lemma colorsys_bounds (h s v : Q) :
  (0 <= h)%Q -> (0 <= s)%Q -> (s <= 1)%Q -> (0 <= v)%Q -> (v <= 1)%Q ->
  let '(r, g, b) := colorsys_hsv_to_rgb h s v in
  (0 <= r /\ r <= 1)%Q /\ (0 <= g /\ g <= 1)%Q /\ (0 <= b /\ b <= 1)%Q.
Proof.
  intros Hh Hs0 Hs1 Hv0 Hv1. unfold colorsys_hsv_to_rgb.
  destruct (Qeq_bool s (0#1)); [repeat split; assumption|].
  assert (Hh6 : (0 <= h * (6#1))%Q) by Lqa.nra.
  unfold Qtrunc.
  assert (E : Qle_bool (0#1) (h * (6#1)) = true) by now apply Qle_bool_iff.
  rewrite E.
  pose proof (Qfloor_le (h * (6#1))) as Hlo.
  pose proof (Qlt_floor (h * (6#1))) as Hhi.
  rewrite inject_Z_plus in Hhi. change (inject_Z 1) with (1#1)%Q in Hhi.
  set (k := inject_Z (Qfloor (h * (6#1)))) in *.
  set (f := (h * (6#1) - k)%Q).
  assert (Hf : (0 <= f /\ f <= 1)%Q) by (unfold f; split; Lqa.lra).
  destruct Hf as [Hf0 Hf1].
  assert (Hsf : (0 <= s * f /\ s * f <= 1)%Q) by (split; Lqa.nra).
  assert (Hsg : (0 <= s * ((1#1) - f) /\ s * ((1#1) - f) <= 1)%Q) by (split; Lqa.nra).
  set (sf := (s * f)%Q) in *. set (sg := (s * ((1#1) - f))%Q) in *.
  assert (Hp : (0 <= v * ((1#1) - s) /\ v * ((1#1) - s) <= 1)%Q) by (split; Lqa.nra).
  assert (Hq : (0 <= v * ((1#1) - sf) /\ v * ((1#1) - sf) <= 1)%Q) by (split; Lqa.nra).
  assert (Ht : (0 <= v * ((1#1) - sg) /\ v * ((1#1) - sg) <= 1)%Q) by (split; Lqa.nra).
  repeat match goal with
         | |- context [if ?b then _ else _] => destruct b
         end; repeat split; tauto.
Qed.

Lemma CosmicLED_hsv_to_rgb_bounds (h s v : Q) :
  (0 <= h)%Q -> (0 <= s)%Q -> (s <= 1)%Q -> (0 <= v)%Q -> (v <= 1)%Q ->
  let '(r, g, b) := CosmicLED_hsv_to_rgb h s v in
  0 <= r <= 255 /\ 0 <= g <= 255 /\ 0 <= b <= 255.
Proof.
  intros Hh Hs0 Hs1 Hv0 Hv1. unfold CosmicLED_hsv_to_rgb.
  pose proof (colorsys_bounds h s v Hh Hs0 Hs1 Hv0 Hv1) as H.
  destruct (colorsys_hsv_to_rgb h s v) as [[r g] b].
  destruct H as ((Hr0 & Hr1) & (Hg0 & Hg1) & (Hb0 & Hb1)).
  assert (A : forall ch : Q, (0 <= ch)%Q -> (ch <= 1)%Q ->
                0 <= Qtrunc (ch * (255#1)) <= 255).
  { intros ch H0 H1. apply Qtrunc_bounds; [lia|Lqa.nra|].
    change (inject_Z 255) with (255#1)%Q. Lqa.nra. }
  repeat split; apply A; assumption.
Qed.

(** ** Gamma correction *)

Lemma Rpower_one_base (y : R) : Rpower 1 y = 1%R.
Proof. unfold Rpower. rewrite ln_1, Rmult_0_r. apply exp_0. Qed.

Lemma float_pow_pos (x y : R) : (0 < x)%R -> float_pow x y = PowFloat (Rpower x y).
Proof. intros H. unfold float_pow. destruct (Rlt_dec 0 x); [reflexivity|contradiction]. Qed.

Lemma float_pow_zero (y : R) : (0 < y)%R -> float_pow 0 y = PowFloat 0%R.
Proof.
  intros H. unfold float_pow.
  destruct (Rlt_dec 0 0) as [F|_]; [Lra.lra|].
  destruct (Req_dec_T 0 0) as [_|F]; [|Lra.lra].
  destruct (Rlt_dec 0 y); [reflexivity|contradiction].
Qed.

Lemma gamma_correct_in_range (value gamma : R) :
  (0 < gamma)%R -> (0 <= value)%R -> (value <= 255)%R ->
  exists r, gamma_correct value gamma = PowFloat r /\ (0 <= r <= 255)%R /\
            (r = 0%R <-> value = 0%R) /\
            ((0 < value)%R -> r = (255 * Rpower (value / 255) gamma)%R).
Proof.
  intros Hg H0 H255. unfold gamma_correct.
  destruct (Req_dec_T value 0) as [->|Hne].
  - replace (0 / 255)%R with 0%R by Lra.lra.
    rewrite (float_pow_zero _ Hg). exists (255 * 0)%R.
    repeat split; try Lra.lra.
  - assert (Hpos : (0 < value / 255)%R) by Lra.lra.
    rewrite (float_pow_pos _ _ Hpos). eexists. split; [reflexivity|].
    assert (Hp : (0 < Rpower (value / 255) gamma)%R) by apply exp_pos.
    assert (Hle : (Rpower (value / 255) gamma <= Rpower 1 gamma)%R).
    { apply Rle_Rpower_l; Lra.lra. }
    rewrite Rpower_one_base in Hle.
    repeat split; try Lra.lra; try (intros; Lra.lra).
Qed.

(** C6: for a fixed positive [gamma], [gamma_correct] is a float on every
    channel value of [[0, 255]], namely [255 * (channel / 255) ^ gamma]
    ([Rpower] is the power of a positive base, and the power of 0 is 0); it
    is monotonically non-decreasing in the channel, its result lies in
    [[0, 255]], it maps 0 to 0 and, for [gamma = 1], 255 to 255. *)
Theorem gamma_correct_monotone (gamma a b : R) :
  (0 < gamma)%R -> (0 <= a)%R -> (a <= b)%R -> (b <= 255)%R ->
  exists ra rb,
    gamma_correct a gamma = PowFloat ra /\
    gamma_correct b gamma = PowFloat rb /\
    (ra <= rb)%R /\ (0 <= ra)%R /\ (rb <= 255)%R /\
    gamma_correct 0 gamma = PowFloat 0%R /\
    gamma_correct 255 1 = PowFloat 255%R /\
    ((0 < a)%R -> ra = (255 * Rpower (a / 255) gamma)%R) /\
    (a = 0%R -> ra = 0%R) /\
    ((0 < b)%R -> rb = (255 * Rpower (b / 255) gamma)%R) /\
    (b = 0%R -> rb = 0%R).
Proof.
  intros Hg Ha Hab Hb.
  destruct (gamma_correct_in_range a gamma Hg) as (ra & Era & Hra & Za & Pa);
    [Lra.lra | Lra.lra |].
  destruct (gamma_correct_in_range b gamma Hg) as (rb & Erb & Hrb & Zb & Pb);
    [Lra.lra | Lra.lra |].
  exists ra, rb. repeat split; try assumption; try Lra.lra.
  - destruct (Req_dec_T a 0) as [Ea|Na].
    + apply Za in Ea. Lra.lra.
    + rewrite Pa, Pb by Lra.lra.
      apply Rmult_le_compat_l; [Lra.lra|].
      apply Rle_Rpower_l; Lra.lra.
  - destruct (gamma_correct_in_range 0 gamma Hg) as (r0 & E0 & _ & Z0 & _);
      [Lra.lra | Lra.lra |].
    rewrite E0. f_equal. now apply Z0.
  - destruct (gamma_correct_in_range 255 1) as (r1 & E1 & _ & _ & P1);
      [Lra.lra | Lra.lra | Lra.lra |].
    rewrite E1, P1 by Lra.lra. f_equal.
    rewrite Rpower_1 by Lra.lra. Lra.lra.
Qed.

Lemma gamma_correct_monotone_witness :
  exists ra rb,
    gamma_correct 64 2 = PowFloat ra /\
    gamma_correct 128 2 = PowFloat rb /\
    (ra <= rb)%R.
Proof.
  destruct (gamma_correct_monotone 2 64 128) as (ra & rb & Ha & Hb & Hle & _);
    [Lra.lra | Lra.lra | Lra.lra | Lra.lra |].
  exists ra, rb. repeat split; assumption.
Defined.

(** ** The coordinate mapper is a bijection *)

Lemma in_matrix_true (x y : Z) (g : MatrixGeometry) :
  in_matrix x y g = true <->
  0 <= x < Z.of_N (width g) /\ 0 <= y < Z.of_N (height g).
Proof. unfold in_matrix. rewrite !andb_true_iff. lia. Qed.

Lemma index_guard_true (i : Z) (g : MatrixGeometry) :
  (0 <=? i) && (i <? pixel_count g) = true <-> 0 <= i < pixel_count g.
Proof. rewrite andb_true_iff. lia. Qed.

Lemma row_major_div (w y c : Z) : 0 <= c < w -> (y * w + c) / w = y.
Proof.
  intros H. symmetry. apply (Z.div_unique_pos _ _ _ c); lia.
Qed.

Lemma row_major_mod (w y c : Z) : 0 <= c < w -> (y * w + c) mod w = c.
Proof.
  intros H. symmetry. apply (Z.mod_unique_pos _ _ y); lia.
Qed.

Lemma xy_round_trip (g : MatrixGeometry) (x y : Z) :
  0 <= x < Z.of_N (width g) -> 0 <= y < Z.of_N (height g) ->
  exists i, xy_to_index x y g = Some i /\ 0 <= i < pixel_count g /\
            index_to_xy i g = Some (x, y).
Proof.
  intros Hx Hy. unfold xy_to_index, index_to_xy, pixel_count.
  assert (G : in_matrix x y g = true) by (apply in_matrix_true; lia).
  rewrite G. set (w := Z.of_N (width g)) in *. set (h := Z.of_N (height g)) in *.
  assert (B : forall c, 0 <= c < w -> 0 <= y * w + c < w * h) by (intros; nia).
  destruct (wiring g).
  - eexists. split; [reflexivity|]. split; [now apply B|].
    assert (E : (0 <=? y * w + x) && (y * w + x <? w * h) = true)
      by (apply andb_true_iff; specialize (B x Hx); lia).
    rewrite E, row_major_div, row_major_mod by lia. reflexivity.
  - destruct (Z.even y) eqn:Ev.
    + eexists. split; [reflexivity|]. split; [now apply B|].
      assert (E : (0 <=? y * w + x) && (y * w + x <? w * h) = true)
        by (apply andb_true_iff; specialize (B x Hx); lia).
      rewrite E, row_major_div, row_major_mod by lia. now rewrite Ev.
    + eexists. split; [reflexivity|].
      assert (Hc : 0 <= w - 1 - x < w) by lia.
      split; [now apply B|].
      assert (E : (0 <=? y * w + (w - 1 - x)) && (y * w + (w - 1 - x) <? w * h) = true)
        by (apply andb_true_iff; specialize (B _ Hc); lia).
      rewrite E, row_major_div, row_major_mod by lia. rewrite Ev.
      do 2 f_equal. lia.
Qed.

Lemma index_round_trip (g : MatrixGeometry) (i : Z) :
  0 <= i < pixel_count g ->
  exists x y, index_to_xy i g = Some (x, y) /\
              0 <= x < Z.of_N (width g) /\ 0 <= y < Z.of_N (height g) /\
              xy_to_index x y g = Some i.
Proof.
  intros Hi. unfold index_to_xy.
  assert (E : (0 <=? i) && (i <? pixel_count g) = true)
    by now apply index_guard_true.
  rewrite E. unfold pixel_count in Hi.
  set (w := Z.of_N (width g)) in *. set (h := Z.of_N (height g)) in *.
  assert (Hw : 0 < w) by (unfold w, h in *; nia).
  pose proof (Z.mod_pos_bound i w Hw) as Hc.
  pose proof (Z.div_mod i w ltac:(lia)) as Hdm.
  assert (Hy : 0 <= i / w < h).
  { split; [apply Z.div_pos; lia|]. apply Z.div_lt_upper_bound; lia. }
  assert (X : forall x y, 0 <= x < w -> 0 <= y < h -> in_matrix x y g = true)
    by (intros; apply in_matrix_true; fold w h; lia).
  destruct (wiring g) eqn:Wg.
  - exists (i mod w), (i / w). repeat split; try lia.
    unfold xy_to_index. rewrite X, Wg by lia. fold w. f_equal. lia.
  - destruct (Z.even (i / w)) eqn:Ev.
    + exists (i mod w), (i / w). repeat split; try lia.
      unfold xy_to_index. rewrite X, Wg, Ev by lia. fold w. f_equal. lia.
    + exists (w - 1 - i mod w), (i / w). repeat split; try lia.
      unfold xy_to_index. rewrite X, Wg, Ev by lia. fold w. f_equal. lia.
Qed.

(** The worked values of the design document and of
    [tests/test_hub75_driver.py]. *)
Example serpentine_4x4 :
  let g := mkGeometry 4 4 Serpentine in
  xy_to_index 0 0 g = Some 0 /\ xy_to_index 3 0 g = Some 3 /\
  xy_to_index 3 1 g = Some 4 /\ xy_to_index 0 1 g = Some 7.
Proof. repeat split. Qed.

Example progressive_64x64 :
  let g := mkGeometry 64 64 Progressive in
  xy_to_index 0 0 g = Some 0 /\ xy_to_index 63 0 g = Some 63 /\
  xy_to_index 0 1 g = Some 64 /\ xy_to_index 63 63 g = Some 4095 /\
  index_to_xy 0 g = Some (0, 0) /\ index_to_xy 63 g = Some (63, 0) /\
  index_to_xy 64 g = Some (0, 1) /\ index_to_xy 4095 g = Some (63, 63).
Proof. repeat split. Qed.

(** C4: for every geometry and both wirings, [xy_to_index] sends every
    coordinate of the matrix to an index below the pixel count from which
    [index_to_xy] gives the coordinate back, and [index_to_xy] sends every
    index below the pixel count to a coordinate of the matrix from which
    [xy_to_index] gives the index back: the two are inverse bijections
    between the matrix and [[0, pixel_count)]. *)
Theorem xy_index_bijection (g : MatrixGeometry) :
  (forall x y,
     0 <= x < Z.of_N (width g) -> 0 <= y < Z.of_N (height g) ->
     exists i,
       xy_to_index x y g = Some i /\ 0 <= i < pixel_count g /\
       index_to_xy i g = Some (x, y)) /\
  (forall i,
     0 <= i < pixel_count g ->
     exists x y,
       index_to_xy i g = Some (x, y) /\
       0 <= x < Z.of_N (width g) /\ 0 <= y < Z.of_N (height g) /\
       xy_to_index x y g = Some i).
Proof.
  split.
  - intros x y. apply xy_round_trip.
  - apply index_round_trip.
Qed.

Lemma xy_index_bijection_witness :
  (exists i, xy_to_index 3 1 (mkGeometry 4 4 Serpentine) = Some i /\
             index_to_xy i (mkGeometry 4 4 Serpentine) = Some (3, 1)) /\
  (exists x y, index_to_xy 7 (mkGeometry 4 4 Serpentine) = Some (x, y) /\
               xy_to_index x y (mkGeometry 4 4 Serpentine) = Some 7).
Proof.
  destruct (xy_index_bijection (mkGeometry 4 4 Serpentine)) as [Hxy Hi].
  split.
  - destruct (Hxy 3 1) as (i & H1 & _ & H2); [simpl; lia | simpl; lia |].
    exists i. split; assumption.
  - destruct (Hi 7) as (x & y & H1 & _ & _ & H2); [unfold pixel_count; simpl; lia |].
    exists x, y. split; assumption.
Defined.

(** ** Where the patterns write *)

Lemma for_each_invariant {A : Type} (I : Canvas -> Prop)
    (body : A -> Canvas -> Canvas * option exn) (items : list A) (cv : Canvas) :
  (forall a cv0, I cv0 -> I (fst (body a cv0))) ->
  I cv -> I (fst (for_each body items cv)).
Proof.
  intros Hbody. revert cv. induction items as [|a rest IH]; intros cv Hcv; simpl.
  - exact Hcv.
  - specialize (Hbody a cv Hcv).
    destruct (body a cv) as [cv' [e|]]; simpl in *; auto.
Qed.



Lemma write_ok (i : Z) (v : rgb) (cv : Canvas) :
  0 <= i < Z.of_nat (length (cv_pixels cv)) ->
  write i v cv =
    (mkCanvas (<[Z.to_nat i := v]> (cv_pixels cv)) (cv_writes cv ++ [i]), None).
Proof.
  intros Hi. unfold write, setitem.
  assert (E : (0 <=? i) && (i <? Z.of_nat (length (cv_pixels cv))) = true)
    by (apply andb_true_iff; lia).
  now rewrite E.
Qed.

Lemma write_within (n : nat) (i : Z) (v : rgb) (cv : Canvas) :
  writes_within n cv -> 0 <= i < Z.of_nat n ->
  writes_within n (fst (write i v cv)).
Proof.
  intros [Hw Hlen] Hi. rewrite write_ok by (rewrite Hlen; exact Hi).
  split; cbn [fst cv_writes cv_pixels].
  - apply Forall_app. split; [exact Hw|]. constructor; [exact Hi|constructor].
  - now rewrite length_insert.
Qed.


Lemma elem_of_range (n x : Z) : x ∈ range n <-> 0 <= x < n.
Proof.
  unfold range. rewrite list_elem_of_fmap. split.
  - intros (k & -> & Hk). apply elem_of_seq in Hk. lia.
  - intros Hx. exists (Z.to_nat x). split; [lia|]. apply elem_of_seq. lia.
Qed.

Lemma for_each_ok {A : Type} (I : Canvas -> Prop) (out : A -> list Z)
    (body : A -> Canvas -> Canvas * option exn) (items : list A) (cv : Canvas) :
  (forall a cv0, a ∈ items -> I cv0 ->
     exists cv1, body a cv0 = (cv1, None) /\ I cv1 /\
                 cv_writes cv1 = cv_writes cv0 ++ out a) ->
  I cv ->
  exists cv', for_each body items cv = (cv', None) /\ I cv' /\
              cv_writes cv' = cv_writes cv ++ concat (map out items).
Proof.
  revert cv. induction items as [|a rest IH]; intros cv Hbody Hcv; simpl.
  - exists cv. now rewrite app_nil_r.
  - destruct (Hbody a cv) as (cv1 & -> & H1 & W1); [left|exact Hcv|].
    destruct (IH cv1) as (cv' & -> & H' & W'); [|exact H1|].
    + intros b cv0 Hb. apply Hbody. now right.
    + exists cv'. repeat split; [exact H'|]. now rewrite W', W1, <- app_assoc.
Qed.

Section PatternFacts.
Variable mapper : Z -> Z -> option Z.
Variable colour : Z -> Z -> Z -> outcome rgb.
Variable setup : Config -> Z -> option exn.







End PatternFacts.




(** A frame of [scripts/waves.py] whose colour arithmetic fails (a missing
    [SCALE], a negative [GAMMA] on a black channel) ends with that exception
    although the mapping is valid, with the buffer untouched. *)
Example waves_colour_failure :
  waves_animate (fun x y => Some (y * 2 + x)) (fun _ _ _ => Raise AttributeError)
    (replicate 4%nat black) waves_config 0
  = (mkCanvas (replicate 4%nat black) [], Some AttributeError).
Proof. reflexivity. Qed.

(** ** More on the render loop *)

Lemma run_loop_frame_count_witness :
  exists s' l',
    run_loop [quick_tick; quick_tick; quick_tick] (demo_engine "cosmic")
             (mkLocals 0 (0#1) []) = StillRunning s' l' /\
    frame l' = 3 /\ frame_count (stats s') = 2.
Proof.
  destruct (run_loop [quick_tick; quick_tick; quick_tick] (demo_engine "cosmic")
              (mkLocals 0 (0#1) [])) as [s'|e s'|s' l'] eqn:E;
    try (vm_compute in E; discriminate).
  exists s', l'. split; [reflexivity|].
  destruct (run_loop_frame_count _ _ _ _ _ E) as [Hf Hc].
  split; [exact Hf|]. rewrite Hc by discriminate. rewrite Hf. reflexivity.
Defined.

(** [run] handles Ctrl-C itself: whatever happens in the loop, the exception
    that leaves [run] is never [KeyboardInterrupt]; an iteration that ends
    with it makes [run] return normally after [cleanup]. *)
Theorem run_loop_swallows_ctrl_c (ticks : list Tick) (s : CosmicLED)
    (l : Locals) (e : exn) (s' : CosmicLED) :
  run_loop ticks s l = Propagated e s' -> e <> KeyboardInterrupt.
Proof.
  revert s l. induction ticks as [|tk rest IH]; intros s l; simpl.
  - destruct (running s); discriminate.
  - destruct (running s); [|discriminate].
    destruct (frame_step tk s l) as [s1 l1 sl|e1 s1].
    + apply IH.
    + destruct e1; intros H; try discriminate H;
        injection H as <- _; discriminate.
Qed.

Lemma run_loop_swallows_ctrl_c_witness :
  OtherError "boom" <> KeyboardInterrupt.
Proof.
  apply (run_loop_swallows_ctrl_c [quick_tick] (demo_engine "bad")
           (mkLocals 0 (0#1) []) _ (cleanup (demo_engine "bad"))).
  reflexivity.
Defined.

(** The sliding window of frame times. *)
Lemma window_short (l : list Q) : (length l <= 30)%nat -> window l = l.
Proof.
  intros H. unfold window. replace (length l - 30)%nat with 0%nat by lia.
  reflexivity.
Qed.

Lemma window_length (l : list Q) : (length (window l) <= 30)%nat.
Proof. unfold window. rewrite length_drop. lia. Qed.

Lemma window_snoc (l : list Q) (x : Q) :
  window (window l ++ [x]) = window (l ++ [x]).
Proof.
  destruct (le_lt_dec (length l) 30) as [Hle|Hgt].
  - now rewrite (window_short l Hle).
  - assert (Hw : length (window l) = 30%nat)
      by (unfold window; rewrite length_drop; lia).
    unfold window at 1. rewrite length_app, Hw. cbn [length].
    replace (30 + 1 - 30)%nat with 1%nat by lia.
    rewrite drop_app_le by lia.
    unfold window. rewrite length_app. cbn [length].
    rewrite drop_drop, drop_app_le by lia. do 2 f_equal. lia.
Qed.

Lemma push_frame_time_window (ft : Q) (l : list Q) :
  (length l <= 30)%nat -> push_frame_time ft l = window (l ++ [ft]).
Proof.
  intros H. unfold push_frame_time, window.
  rewrite length_app. cbn [length].
  destruct (30 <? length l + 1)%nat eqn:E.
  - apply Nat.ltb_lt in E.
    replace (length l + 1 - 30)%nat with 1%nat by lia.
    now destruct (l ++ [ft]).
  - apply Nat.ltb_ge in E.
    replace (length l + 1 - 30)%nat with 0%nat by lia. reflexivity.
Qed.

Lemma frame_step_frame_times (tk : Tick) (s s' : CosmicLED) (l l' : Locals)
    (slept : option Q) :
  frame_step tk s l = StepOk s' l' slept ->
  frame_times l' = push_frame_time (elapsed tk) (frame_times l).
Proof.
  unfold frame_step.
  destruct (programs s !! current_program s) as [p|]; cbn zeta.
  - destruct (p (np_buf (pixels s)) (config s) (frame l)) as [b [e|]];
      cbn [fst snd]; [discriminate|].
    destruct (interrupted tk); [discriminate|].
    destruct (Qgtb _ (0#1)); intros H; injection H as <- <- <-; reflexivity.
  - cbn [fst snd].
    destruct (interrupted tk); [discriminate|].
    destruct (Qgtb _ (0#1)); intros H; injection H as <- <- <-; reflexivity.
Qed.

Lemma run_loop_window_gen (ticks : list Tick) (hist : list Q)
    (s s' : CosmicLED) (l l' : Locals) :
  frame_times l = window hist ->
  run_loop ticks s l = StillRunning s' l' ->
  frame_times l' = window (hist ++ map elapsed ticks).
Proof.
  revert hist s l. induction ticks as [|tk rest IH]; intros hist s l Hw; simpl.
  - destruct (running s); [|discriminate].
    intros H. injection H as <- <-. now rewrite app_nil_r.
  - destruct (running s); [|discriminate].
    destruct (frame_step tk s l) as [s1 l1 sl|e s1] eqn:E.
    + intros H. apply frame_step_frame_times in E.
      replace (hist ++ elapsed tk :: map elapsed rest)
        with ((hist ++ [elapsed tk]) ++ map elapsed rest)
        by now rewrite <- app_assoc.
      apply (IH _ s1 l1); [|exact H].
      rewrite E, Hw, push_frame_time_window by apply window_length.
      apply window_snoc.
    + destruct e; discriminate.
Qed.

(** The list [frame_times] of [run] is a sliding window: after any number
    of frames it holds the durations of the last thirty frames (all of them
    while there are fewer), oldest first, and never more than thirty. *)
Theorem run_keeps_last_thirty_frame_times (t0 : Q) (ticks : list Tick)
    (s s' : CosmicLED) (l' : Locals) :
  run t0 ticks s = StillRunning s' l' ->
  frame_times l' = window (map elapsed ticks) /\
  (length (frame_times l') <= 30)%nat /\
  length (frame_times l') = Nat.min 30 (length ticks).
Proof.
  intros H. unfold run in H.
  apply (run_loop_window_gen ticks []) in H; [|reflexivity].
  rewrite app_nil_l in H. rewrite H. split; [reflexivity|].
  split; [apply window_length|].
  unfold window. rewrite length_drop, length_map. lia.
Qed.

Lemma run_keeps_last_thirty_frame_times_witness :
  exists s' l',
    run (0#1) [quick_tick; slow_tick] (demo_engine "cosmic") = StillRunning s' l' /\
    frame_times l' = [elapsed quick_tick; elapsed slow_tick].
Proof.
  destruct (run (0#1) [quick_tick; slow_tick] (demo_engine "cosmic"))
    as [s'|e s'|s' l'] eqn:E; try (vm_compute in E; discriminate).
  exists s', l'. split; [reflexivity|].
  destruct (run_keeps_last_thirty_frame_times _ _ _ _ _ E) as [H _].
  exact H.
Defined.

(** Frame pacing: an iteration that completes lasts, work and pause
    together, at least the sixtieth of a second; the pause is skipped exactly
    when the work alone took that long, and never exceeds the target when
    the clock does not run backwards. *)
Theorem frame_step_holds_frame_rate (tk : Tick) (s s' : CosmicLED)
    (l l' : Locals) (slept : option Q) :
  frame_step tk s l = StepOk s' l' slept ->
  (target_frame_time <= elapsed tk + sleep_duration slept)%Q /\
  (slept = None <-> (target_frame_time <= elapsed tk)%Q) /\
  ((0 <= elapsed tk)%Q -> (sleep_duration slept <= target_frame_time)%Q).
Proof.
  intros H. apply frame_step_ok in H. cbv zeta in H.
  destruct H as (_ & _ & _ & _ & _ & _ & _ & _ & ->).
  fold (elapsed tk). cbv zeta.
  destruct (Qgtb _ _) eqn:E; simpl.
  - apply Qgtb_true in E. repeat split; try Lqa.lra; try discriminate.
  - apply Qgtb_false in E. repeat split; try Lqa.lra.
    unfold target_frame_time. intros _. Lqa.lra.
Qed.

Lemma frame_step_holds_frame_rate_witness :
  (target_frame_time
     <= elapsed quick_tick
        + sleep_duration (Some (target_frame_time - ((1#1000) - (0#1)))))%Q.
Proof.
  eapply (frame_step_holds_frame_rate quick_tick (demo_engine "cosmic")
            _ (mkLocals 0 (0#1) [])).
  reflexivity.
Defined.

(** Rounding to a tenth. *)
Lemma round_half_even_close (q : Q) :
  (Qabs (inject_Z (round_half_even q) - q) <= 1#2)%Q.
Proof.
  unfold round_half_even.
  pose proof (Qfloor_le q) as Hlo. pose proof (Qlt_floor q) as Hhi.
  rewrite inject_Z_plus in Hhi. change (inject_Z 1) with (1#1)%Q in Hhi.
  set (f := Qfloor q) in *.
  destruct (q - inject_Z f ?= 1 # 2)%Q eqn:C.
  - apply Qeq_alt in C. destruct (Z.even f).
    + apply Qabs_Qle_condition. split; Lqa.lra.
    + rewrite inject_Z_plus. change (inject_Z 1) with (1#1)%Q.
      apply Qabs_Qle_condition. split; Lqa.lra.
  - apply Qlt_alt in C. apply Qabs_Qle_condition. split; Lqa.lra.
  - apply Qgt_alt in C. rewrite inject_Z_plus. change (inject_Z 1) with (1#1)%Q.
    apply Qabs_Qle_condition. split; Lqa.lra.
Qed.

Lemma round_half_even_nonneg (q : Q) : (0 <= q)%Q -> 0 <= round_half_even q.
Proof.
  intros Hq. unfold round_half_even.
  assert (Hf : 0 <= Qfloor q) by (apply (Qfloor_resp_le (inject_Z 0) q); exact Hq).
  destruct (_ ?= _)%Q; [destruct (Z.even _)| |]; lia.
Qed.

Lemma round1_close (q : Q) : (Qabs (round1 q - q) <= 1#20)%Q.
Proof.
  unfold round1. pose proof (round_half_even_close (q * inject_Z 10)) as H.
  change (inject_Z 10) with (10#1)%Q in *.
  set (z := inject_Z (round_half_even (q * (10#1)))) in *.
  apply Qabs_Qle_condition in H. destruct H as [H1 H2].
  apply Qabs_Qle_condition.
  assert (E : (z / (10#1) == z * (1#10))%Q) by (field).
  rewrite E. split; Lqa.lra.
Qed.

Lemma round1_nonneg (q : Q) : (0 <= q)%Q -> (0 <= round1 q)%Q.
Proof.
  intros Hq. unfold round1.
  assert (H : 0 <= round_half_even (q * inject_Z 10)).
  { apply round_half_even_nonneg. change (inject_Z 10) with (10#1)%Q. Lqa.lra. }
  change (inject_Z 10) with (10#1)%Q.
  assert (Hz : (0 <= inject_Z (round_half_even (q * (10#1))))%Q).
  { change (0#1)%Q with (inject_Z 0). now rewrite <- Zle_Qle. }
  set (z := inject_Z (round_half_even (q * (10#1)))) in *.
  assert (E : (z / (10#1) == z * (1#10))%Q) by (field).
  rewrite E. Lqa.lra.
Qed.

Lemma frame_step_fps (tk : Tick) (s s' : CosmicLED) (l l' : Locals)
    (slept : option Q) :
  frame_step tk s l = StepOk s' l' slept ->
  let times := push_frame_time (elapsed tk) (frame_times l) in
  let avg := (Qsum times / inject_Z (Z.of_nat (length times)))%Q in
  if Qgtb (t_fps_check tk - last_time l)%Q (1#1)%Q then
    last_time l' = t_fps_reset tk /\
    fps (stats s') = if Qgtb avg (0#1)%Q then round1 (/ avg)%Q else (0#1)%Q
  else
    last_time l' = last_time l /\ fps (stats s') = fps (stats s).
Proof.
  unfold frame_step.
  destruct (programs s !! current_program s) as [p|]; cbn zeta.
  - destruct (p (np_buf (pixels s)) (config s) (frame l)) as [b [e|]];
      cbn [fst snd]; [discriminate|].
    destruct (interrupted tk); [discriminate|].
    fold (elapsed tk).
    destruct (Qgtb (target_frame_time - elapsed tk) (0#1));
      intros H; injection H as <- <- <-; cbn;
      destruct (Qgtb (t_fps_check tk - last_time l) 1); split; reflexivity.
  - cbn [fst snd].
    destruct (interrupted tk); [discriminate|].
    fold (elapsed tk).
    destruct (Qgtb (target_frame_time - elapsed tk) (0#1));
      intros H; injection H as <- <- <-; cbn;
      destruct (Qgtb (t_fps_check tk - last_time l) 1); split; reflexivity.
Qed.

(** The [fps] statistic is refreshed only when more than a second has passed
    since the last refresh; it is then the reciprocal of the mean of the
    window of frame times rounded to a tenth (within 0.05 of it), never
    negative, and 0 instead of a division by zero when that mean is not
    positive. *)
Theorem frame_step_refreshes_fps (tk : Tick) (s s' : CosmicLED)
    (l l' : Locals) (slept : option Q) :
  frame_step tk s l = StepOk s' l' slept ->
  let times := push_frame_time (elapsed tk) (frame_times l) in
  let avg := (Qsum times / inject_Z (Z.of_nat (length times)))%Q in
  ((t_fps_check tk - last_time l <= 1)%Q ->
     fps (stats s') = fps (stats s) /\ last_time l' = last_time l) /\
  ((1 < t_fps_check tk - last_time l)%Q ->
     last_time l' = t_fps_reset tk /\
     (0 <= fps (stats s'))%Q /\
     ((avg <= 0)%Q -> fps (stats s') = (0#1)%Q) /\
     ((0 < avg)%Q -> (Qabs (fps (stats s') - / avg) <= 1#20)%Q)).
Proof.
  intros H. apply frame_step_fps in H. cbv zeta in *.
  set (times := push_frame_time (elapsed tk) (frame_times l)) in *.
  set (avg := (Qsum times / inject_Z (Z.of_nat (length times)))%Q) in *.
  destruct (Qgtb (t_fps_check tk - last_time l) 1) eqn:Due.
  - apply Qgtb_true in Due. destruct H as [Hl Hf]. split; [intros; Lqa.lra|].
    intros _. split; [exact Hl|]. rewrite Hf.
    destruct (Qgtb avg (0#1)) eqn:Pos.
    + apply Qgtb_true in Pos.
      assert (Hinv : (0 < / avg)%Q) by now apply Qinv_lt_0_compat.
      split; [apply round1_nonneg; Lqa.lra|].
      split; [intros; Lqa.lra|]. intros _. apply round1_close.
    + apply Qgtb_false in Pos.
      split; [Lqa.lra|]. split; [reflexivity|]. intros; Lqa.lra.
  - apply Qgtb_false in Due. destruct H as [Hl Hf].
    split; [intros _; split; assumption|]. intros; Lqa.lra.
Qed.

Lemma frame_step_refreshes_fps_witness :
  exists s' l' slept,
    frame_step (mkTick (0#1) (1#50) (2#1) (2#1) false) (demo_engine "cosmic")
      (mkLocals 0 (0#1) []) = StepOk s' l' slept /\
    (Qabs (fps (stats s') - (50#1)) <= 1#20)%Q.
Proof.
  destruct (frame_step (mkTick (0#1) (1#50) (2#1) (2#1) false)
              (demo_engine "cosmic") (mkLocals 0 (0#1) []))
    as [s' l' slept|e s'] eqn:E; [|vm_compute in E; discriminate].
  exists s', l', slept. split; [reflexivity|].
  destruct (frame_step_refreshes_fps _ _ _ _ _ _ E) as [_ H].
  destruct H as (_ & _ & _ & H); [reflexivity|].
  apply H. reflexivity.
Defined.

(** Each iteration that completes commits exactly one frame, and the strip
    is not released while the loop is running. *)
Theorem run_loop_commits_one_frame_per_tick (ticks : list Tick)
    (s s' : CosmicLED) (l l' : Locals) :
  run_loop ticks s l = StillRunning s' l' ->
  exists frames,
    length frames = length ticks /\
    np_log (pixels s') = np_log (pixels s) ++ map Committed frames /\
    last frames = (match ticks with [] => None | _ => Some (np_buf (pixels s')) end).
Proof.
  revert s l. induction ticks as [|tk rest IH]; intros s l; simpl.
  - destruct (running s); [|discriminate].
    intros H. injection H as <- <-. exists []. now rewrite app_nil_r.
  - destruct (running s); [|discriminate].
    destruct (frame_step tk s l) as [s1 l1 sl|e s1] eqn:E.
    + intros H. destruct (IH _ _ H) as (frames & Hlen & Hlog & Hlast).
      apply frame_step_ok in E. cbv zeta in E.
      destruct E as (Hb & Hl & _).
      exists (np_buf (pixels s1) :: frames). split; [simpl; lia|]. split.
      * rewrite Hlog, Hl, Hb, <- app_assoc. reflexivity.
      * destruct rest as [|tk2 rest2].
        -- destruct frames; [|discriminate]. simpl in H.
           destruct (running s1); [|discriminate]. injection H as <- <-.
           reflexivity.
        -- destruct frames as [|f fs]; [discriminate|]. exact Hlast.
    + destruct e; discriminate.
Qed.

Lemma run_loop_commits_one_frame_per_tick_witness :
  exists s' l' frames,
    run_loop [quick_tick; quick_tick] (demo_engine "cosmic")
      (mkLocals 0 (0#1) []) = StillRunning s' l' /\
    length frames = 2%nat /\
    np_log (pixels s') = map Committed frames.
Proof.
  destruct (run_loop [quick_tick; quick_tick] (demo_engine "cosmic")
              (mkLocals 0 (0#1) [])) as [s'|e s'|s' l'] eqn:E;
    try (vm_compute in E; discriminate).
  destruct (run_loop_commits_one_frame_per_tick _ _ _ _ _ E)
    as (frames & Hlen & Hlog & _).
  exists s', l', frames. split; [reflexivity|]. split; [exact Hlen | exact Hlog].
Defined.

(** ** Invariants of the controller *)

(** Whatever the host does, and whether the call returns or raises,
    [update_config] touches the configuration and the strip only. *)
Lemma update_config_keeps_rest (h : Host) (upd : list (string * pyval))
    (s : CosmicLED) :
  let s' := snd (update_config h upd s) in
  current_program s' = current_program s /\ programs s' = programs s /\
  stats s' = stats s /\ running s' = running s.
Proof.
  unfold update_config.
  destruct (apply_items h upd (config s)) as [c [e|]]; [cbn; repeat split|].
  destruct (host_brightness h c) as [b|e]; [|cbn; repeat split].
  destruct (host_set_brightness h b _) as [p|e]; cbn; repeat split.
Qed.

Lemma switch_program_consistent (name : string) (s : CosmicLED) :
  consistent s -> consistent (snd (switch_program name s)).
Proof.
  intros [Hreg Hsync]. unfold consistent.
  destruct (programs s !! name) as [p|] eqn:E.
  - rewrite (switch_program_registered _ _ _ E). cbn. rewrite E. eauto.
  - rewrite (switch_program_unregistered _ _ E). now split.
Qed.

Lemma do_call_consistent (h : Host) (s : CosmicLED) (c : api_call) :
  consistent s -> consistent (do_call h s c).
Proof.
  destruct c as [name|upd]; simpl.
  - apply switch_program_consistent.
  - intros [Hreg Hsync].
    destruct (update_config_keeps_rest h upd s) as (Hc & Hp & Hs & _).
    unfold consistent. now rewrite Hc, Hp, Hs.
Qed.

Lemma load_programs_keeps_rest (builtin : Pattern)
    (scripts_dir : option (list (string * load_result))) (s : CosmicLED) :
  let s' := load_programs builtin scripts_dir s in
  current_program s' = current_program s /\ stats s' = stats s /\
  config s' = config s /\ running s' = running s /\ pixels s' = pixels s.
Proof. unfold load_programs. destruct scripts_dir; cbn; repeat split. Qed.

(** From construction on, through any sequence of [switch_program] and
    [update_config] calls, whether they return or raise and whatever the
    host does, the active program is registered and the status names it: the
    render loop never meets an unregistered active name. *)
Theorem active_program_stays_registered (h : Host) (cfg : Config)
    (builtin : Pattern)
    (scripts_dir : option (list (string * load_result))) (now : string)
    (s : CosmicLED) (calls : list api_call) :
  init cfg builtin scripts_dir now = Ok s ->
  consistent (foldl (do_call h) s calls).
Proof.
  intros Hinit.
  assert (H0 : consistent s).
  { unfold init in Hinit.
    destruct (getattr cfg "LED_COUNT") as [count|]; [|discriminate].
    destruct (getattr cfg "BRIGHTNESS") as [b|]; [|discriminate].
    destruct (as_int count) as [n|]; [|discriminate].
    injection Hinit as <-.
    destruct (load_programs_keeps_rest builtin scripts_dir
                (mkCosmicLED cfg true "cosmic" ∅
                   (mkStats (0#1) 0 0 "cosmic" now) (np_new n b)))
      as (Hc & Hs & _).
    unfold consistent. rewrite Hc, Hs. split; [|reflexivity].
    apply load_programs_registers_cosmic. }
  clear Hinit. revert s H0.
  induction calls as [|c rest IH]; intros s H0; simpl; [exact H0|].
  apply IH. now apply do_call_consistent.
Qed.

Lemma active_program_stays_registered_witness :
  exists s,
    init (<["LED_COUNT" := PInt 4]> demo_config) paint_white
         (Some [("waves.py", HasAnimate always_raises)]) "t0" = Ok s /\
    consistent (foldl (do_call object_host) s
                  [CallSwitch "waves"; CallSwitch "nope";
                   CallUpdate [("SPEED", PInt 3)]]).
Proof.
  eexists. split; [reflexivity|].
  apply (active_program_stays_registered object_host
           (<["LED_COUNT" := PInt 4]> demo_config)
           paint_white (Some [("waves.py", HasAnimate always_raises)]) "t0").
  reflexivity.
Defined.

(** A successful [switch_program] takes effect on the next frame: the
    iteration that follows calls the newly selected program, with the frame
    number of the loop, and commits what it painted. *)
Theorem switch_program_takes_effect_next_frame (name : string) (tk : Tick)
    (s : CosmicLED) (l : Locals) (p : Pattern) (buf' : list rgb) :
  programs s !! name = Some p ->
  p (np_buf (pixels s)) (config s) (frame l) = (buf', None) ->
  interrupted tk = false ->
  exists s' l' slept,
    frame_step tk (snd (switch_program name s)) l = StepOk s' l' slept /\
    np_buf (pixels s') = buf' /\
    np_log (pixels s') = np_log (pixels s) ++ [Committed buf'] /\
    current_program s' = name /\
    stats_current_program (stats s') = name.
Proof.
  intros Hp Hrun Hint.
  rewrite (switch_program_registered _ _ _ Hp). cbn [snd].
  unfold frame_step. cbn [programs current_program pixels config].
  rewrite Hp, Hrun. cbn [fst snd]. rewrite Hint.
  destruct (Qgtb _ (0#1)); do 3 eexists; (split; [reflexivity|]); cbn;
    repeat split.
Qed.

Lemma switch_program_takes_effect_next_frame_witness :
  exists s' l' slept,
    frame_step quick_tick (snd (switch_program "cosmic" (demo_engine "bad")))
      (mkLocals 0 (0#1) []) = StepOk s' l' slept /\
    np_buf (pixels s') = replicate 4%nat white.
Proof.
  destruct (switch_program_takes_effect_next_frame "cosmic" quick_tick
              (demo_engine "bad") (mkLocals 0 (0#1) []) paint_white
              (replicate 4%nat white))
    as (s' & l' & sl & H1 & H2 & _); try reflexivity.
  exists s', l', sl. split; assumption.
Defined.

(** The statistics thread and the render loop write different keys of
    [self.stats]: an iteration of the writer and an iteration of the loop
    give the same controller in either order, and the writer never changes
    [fps], [frame_count] or [current_program]. *)
Theorem stats_writer_commutes_with_frame (start now : Q) (stamp : string)
    (tk : Tick) (s : CosmicLED) (l : Locals) :
  let w := fun x => fst (stats_writer_step start now stamp x) in
  frame_step tk (w s) l =
    match frame_step tk s l with
    | StepOk s' l' slept => StepOk (w s') l' slept
    | StepRaise e s' => StepRaise e (w s')
    end /\
  fps (stats (w s)) = fps (stats s) /\
  frame_count (stats (w s)) = frame_count (stats s) /\
  stats_current_program (stats (w s)) = stats_current_program (stats s) /\
  uptime (stats (w s)) = Qtrunc (now - start) /\
  snd (stats_writer_step start now stamp s) = stats (w s).
Proof.
  cbv zeta. split; [|repeat split].
  unfold frame_step, stats_writer_step.
  cbn [fst programs current_program pixels config set_stats stats].
  destruct (programs s !! current_program s) as [p|].
  - destruct (p (np_buf (pixels s)) (config s) (frame l)) as [b [e|]];
      cbn [fst snd]; [reflexivity|].
    destruct (interrupted tk); [reflexivity|].
    destruct (Qgtb (target_frame_time - _) (0#1)); reflexivity.
  - cbn [fst snd].
    destruct (interrupted tk); [reflexivity|].
    destruct (Qgtb (target_frame_time - _) (0#1)); reflexivity.
Qed.

(** ** More on [update_config] *)

(** [update_config] has no rollback.  When the call raises, the strip is as
    it was and the configuration is whatever the loop over the items left;
    in particular, when [setattr] raises on a field, the fields before it
    stay applied and the fields after it are not looked at. *)
Theorem update_config_no_rollback (h : Host) (upd : list (string * pyval))
    (s : CosmicLED) (e : exn) :
  fst (update_config h upd s) = Raise e ->
  pixels (snd (update_config h upd s)) = pixels s /\
  config (snd (update_config h upd s)) = fst (apply_items h upd (config s)) /\
  (forall before key v after c e0,
     upd = before ++ (key, v) :: after ->
     apply_items h before (config s) = (c, None) ->
     host_hasattr h c key = Ok true ->
     host_setattr h c key v = Raise e0 ->
     e = e0 /\ config (snd (update_config h upd s)) = c).
Proof.
  intros Hraise.
  assert (Hcfg : config (snd (update_config h upd s))
                 = fst (apply_items h upd (config s))).
  { unfold update_config.
    destruct (apply_items h upd (config s)) as [c0 [e1|]]; [reflexivity|].
    destruct (host_brightness h c0) as [b|e1]; [|reflexivity].
    destruct (host_set_brightness h b _) as [p|e1]; reflexivity. }
  split; [|split; [exact Hcfg|]].
  - revert Hraise. unfold update_config.
    destruct (apply_items h upd (config s)) as [c0 [e1|]]; [reflexivity|].
    destruct (host_brightness h c0) as [b|e1]; [|reflexivity].
    destruct (host_set_brightness h b _) as [p|e1]; [discriminate|reflexivity].
  - intros before key v after c e0 -> Hbefore Hhas Hset.
    assert (Hloop : apply_items h (before ++ (key, v) :: after) (config s)
                    = (c, Some e0)).
    { rewrite apply_items_app, Hbefore. simpl. now rewrite Hhas, Hset. }
    rewrite Hcfg, Hloop. split; [|reflexivity].
    revert Hraise. unfold update_config. rewrite Hloop. cbn. congruence.
Qed.

Lemma update_config_no_rollback_witness :
  config (snd (update_config object_host
                 [("SPEED", PInt 2); ("__class__", PInt 5); ("BRIGHTNESS", PInt 1)]
                 (demo_engine "cosmic")))
    = <["SPEED" := PInt 2]> demo_config /\
  pixels (snd (update_config object_host
                 [("SPEED", PInt 2); ("__class__", PInt 5); ("BRIGHTNESS", PInt 1)]
                 (demo_engine "cosmic")))
    = demo_strip.
Proof.
  destruct (update_config_no_rollback object_host
              [("SPEED", PInt 2); ("__class__", PInt 5); ("BRIGHTNESS", PInt 1)]
              (demo_engine "cosmic") TypeError eq_refl)
    as (Hpix & _ & Hmid).
  split; [|exact Hpix].
  apply (Hmid [("SPEED", PInt 2)] "__class__" (PInt 5)
              [("BRIGHTNESS", PInt 1)] (<["SPEED" := PInt 2]> demo_config)
              TypeError); reflexivity.
Defined.

(** ** More on [load_programs] *)

(** Where a registered program comes from: after the scan of the scripts
    folder, a name is bound either to what it was bound to before, or to the
    [animate] of a listed file called [name.py] that does not start with
    two underscores.  Files with another extension, dunder files, modules
    that fail to load and modules without [animate] register nothing. *)
Theorem load_scripts_provenance (files : list (string * load_result))
    (m : gmap string Pattern) (name : string) (p : Pattern) :
  load_scripts files m !! name = Some p ->
  m !! name = Some p \/
  exists f,
    (f, HasAnimate p) ∈ files /\ f = (name +:+ ".py") /\
    startswith f "__" = false.
Proof. apply load_scripts_provenance_aux. Qed.

Lemma load_scripts_provenance_witness :
  (∅ : gmap string Pattern) !! "waves" = Some paint_white \/
  exists f,
    (f, HasAnimate paint_white)
      ∈ [("notes.txt", HasAnimate always_raises); ("waves.py", HasAnimate paint_white)] /\
    f = ("waves" +:+ ".py") /\ startswith f "__" = false.
Proof.
  apply (load_scripts_provenance
           [("notes.txt", HasAnimate always_raises); ("waves.py", HasAnimate paint_white)]).
  reflexivity.
Defined.


(** The built-in program can be shadowed: a script [cosmic.py] with an
    [animate] function at the end of the listing takes the name ["cosmic"]
    from the built-in animation; when the listing holds no file of that name
    the built-in animation keeps it. *)
Theorem load_programs_cosmic_binding (builtin p : Pattern)
    (files : list (string * load_result)) (s : CosmicLED) :
  programs (load_programs builtin
              (Some (files ++ [("cosmic.py", HasAnimate p)])) s) !! "cosmic"
    = Some p /\
  ((forall r, (("cosmic.py")%string, r) ∉ files) ->
   programs (load_programs builtin (Some files) s) !! "cosmic" = Some builtin) /\
  programs (load_programs builtin None s) !! "cosmic" = Some builtin.
Proof.
  split; [|split].
  - unfold load_programs. cbn [programs set_programs].
    rewrite load_scripts_app. simpl. apply lookup_insert_eq.
  - intros Hno. unfold load_programs. cbn [programs set_programs].
    destruct (load_scripts files (<["cosmic" := builtin]> (programs s)) !! "cosmic")
      as [q|] eqn:E.
    + destruct (load_scripts_provenance_aux _ _ _ _ E) as [Hm|(f & Hin & -> & _)].
      * rewrite lookup_insert_eq in Hm. congruence.
      * exfalso. apply (Hno (HasAnimate q)). exact Hin.
    + exfalso.
      assert (H : is_Some (load_scripts files (<["cosmic" := builtin]> (programs s)) !! "cosmic")).
      { apply load_scripts_keeps. rewrite lookup_insert_eq. eauto. }
      rewrite E in H. destruct H; discriminate.
  - unfold load_programs. cbn. apply lookup_insert_eq.
Qed.

Lemma length_append (a b : string) :
  String.length (a +:+ b) = (String.length a + String.length b)%nat.
Proof.
  induction a as [|c a IH]; [reflexivity|].
  rewrite append_cons. cbn [String.length]. now rewrite IH.
Qed.

Lemma substring_append_r (a b : string) :
  String.substring (String.length a) (String.length b) (a +:+ b) = b.
Proof.
  induction a as [|c a IH]; [apply substring_full|].
  rewrite append_cons. cbn [String.length]. simpl. exact IH.
Qed.

Lemma endswith_append (a b : string) : endswith (a +:+ b) b = true.
Proof.
  unfold endswith. rewrite length_append. apply andb_true_iff. split.
  - apply Nat.leb_le. lia.
  - replace (String.length a + String.length b - String.length b)%nat
      with (String.length a) by lia.
    rewrite substring_append_r. apply String.eqb_refl.
Qed.



Lemma load_programs_cosmic_binding_witness :
  programs (load_programs paint_white
              (Some [("waves.py", HasAnimate always_raises)])
              (demo_engine "cosmic")) !! "cosmic" = Some paint_white.
Proof.
  destruct (load_programs_cosmic_binding paint_white always_raises
              [("waves.py", HasAnimate always_raises)] (demo_engine "cosmic"))
    as (_ & H & _).
  apply H. intros r Hin.
  apply list_elem_of_singleton in Hin. discriminate.
Defined.

(** ** More on [gamma_correct] *)

(** Exponents the method does not guard against: with [gamma = 0] every
    channel value, black included, becomes 255; with a negative [gamma] the
    value 0 raises [ZeroDivisionError]; a negative value with an exponent
    that is not a whole number gives a complex number, not a float. *)
Theorem gamma_correct_unguarded_exponents (value gamma : R) :
  ((0 <= value)%R -> gamma_correct value 0 = PowFloat 255%R) /\
  ((gamma < 0)%R -> gamma_correct 0 gamma = PowZeroDivision) /\
  ((value < 0)%R -> (forall n : Z, gamma <> IZR n) ->
   gamma_correct value gamma = PowComplex).
Proof.
  unfold gamma_correct. repeat split.
  - intros Hv. unfold float_pow.
    destruct (Rlt_dec 0 (value / 255)) as [Hp|Hn].
    + unfold Rpower. rewrite Rmult_0_l, exp_0. f_equal. Lra.lra.
    + destruct (Req_dec_T (value / 255) 0) as [_|Hne]; [|Lra.lra].
      destruct (Rlt_dec 0 0) as [F|_]; [Lra.lra|].
      destruct (Req_dec_T 0 0) as [_|F]; [|Lra.lra].
      f_equal. Lra.lra.
  - intros Hg. replace (0 / 255)%R with 0%R by Lra.lra. unfold float_pow.
    destruct (Rlt_dec 0 0) as [F|_]; [Lra.lra|].
    destruct (Req_dec_T 0 0) as [_|F]; [|Lra.lra].
    destruct (Rlt_dec 0 gamma) as [F|_]; [Lra.lra|].
    destruct (Req_dec_T gamma 0) as [F|_]; [Lra.lra|]. reflexivity.
  - intros Hv Hfrac. unfold float_pow.
    destruct (Rlt_dec 0 (value / 255)) as [F|_]; [Lra.lra|].
    destruct (Req_dec_T (value / 255) 0) as [F|_]; [Lra.lra|].
    destruct (Req_dec_T gamma (IZR (Int_part gamma))) as [F|_]; [|reflexivity].
    now apply Hfrac in F.
Qed.

Lemma gamma_correct_unguarded_exponents_witness :
  gamma_correct 0 0 = PowFloat 255%R /\
  gamma_correct 0 (-1) = PowZeroDivision /\
  gamma_correct (-1) (/ 2) = PowComplex.
Proof.
  destruct (gamma_correct_unguarded_exponents 0 0) as (H0 & _ & _).
  destruct (gamma_correct_unguarded_exponents 0 (-1)) as (_ & H1 & _).
  destruct (gamma_correct_unguarded_exponents (-1) (/ 2)) as (_ & _ & H2).
  split; [apply H0; Lra.lra|]. split; [apply H1; Lra.lra|].
  apply H2; [Lra.lra|].
  intros n Hn.
  assert (E : (2 * IZR n = 1)%R) by (rewrite <- Hn; Lra.lra).
  rewrite <- mult_IZR in E. apply eq_IZR in E. lia.
Defined.

(** ** More on the HSV conversion of [test_color_math.py] *)

Lemma Qltb_true (a b : Q) : Qltb a b = true <-> (a < b)%Q.
Proof.
  unfold Qltb. rewrite Qlt_alt. destruct (a ?= b)%Q; split; congruence.
Qed.

Lemma Qltb_false (a b : Q) : Qltb a b = false <-> (b <= a)%Q.
Proof.
  unfold Qltb. destruct (a ?= b)%Q eqn:E; split; intros H;
    try discriminate; try reflexivity.
  - apply Qeq_alt in E. Lqa.lra.
  - apply Qlt_alt in E. Lqa.lra.
  - apply Qgt_alt in E. Lqa.lra.
Qed.

(** The six-branch formula the file tests keeps its three channels within
    [[0, 1]] exactly for a hue within [[0, 6]]: the errors the script counts
    are the hues outside that interval, and each of them gives a negative
    channel, green for a hue below 0 and blue for a hue above 6, while no
    channel ever exceeds 1. *)
Theorem naive_hue_in_range_iff (hue : Q) :
  let '(r, g, b) := naive_hue_to_rgb hue in
  (((0 <= r /\ r <= 1) /\ (0 <= g /\ g <= 1) /\ (0 <= b /\ b <= 1))%Q
   <-> (0 <= hue /\ hue <= 6)%Q) /\
  ((hue < 0)%Q -> (g < 0)%Q) /\
  ((6 < hue)%Q -> (b < 0)%Q) /\
  (r <= 1 /\ g <= 1 /\ b <= 1)%Q.
Proof.
  unfold naive_hue_to_rgb.
  destruct (Qltb hue 1) eqn:E1;
    [apply Qltb_true in E1; repeat split; intros; repeat split; Lqa.lra|].
  apply Qltb_false in E1.
  destruct (Qltb hue 2) eqn:E2;
    [apply Qltb_true in E2; repeat split; intros; repeat split; Lqa.lra|].
  apply Qltb_false in E2.
  destruct (Qltb hue 3) eqn:E3;
    [apply Qltb_true in E3; repeat split; intros; repeat split; Lqa.lra|].
  apply Qltb_false in E3.
  destruct (Qltb hue 4) eqn:E4;
    [apply Qltb_true in E4; repeat split; intros; repeat split; Lqa.lra|].
  apply Qltb_false in E4.
  destruct (Qltb hue 5) eqn:E5;
    [apply Qltb_true in E5; repeat split; intros; repeat split; Lqa.lra|].
  apply Qltb_false in E5.
  repeat split; intros; repeat split; Lqa.lra.
Qed.

Lemma naive_hue_in_range_iff_witness :
  (snd (naive_hue_to_rgb (13#2)) < 0)%Q /\
  (snd (fst (naive_hue_to_rgb (-1#2))) < 0)%Q.
Proof.
  pose proof (naive_hue_in_range_iff (13#2)) as H1.
  pose proof (naive_hue_in_range_iff (-1#2)) as H2.
  destruct (naive_hue_to_rgb (13#2)) as [[r1 g1] b1].
  destruct (naive_hue_to_rgb (-1#2)) as [[r2 g2] b2].
  destruct H1 as (_ & _ & Hb & _). destruct H2 as (_ & Hg & _).
  split; [apply Hb | apply Hg]; reflexivity.
Defined.

(** ** More on the pattern functions *)

Section MorePatternFacts.
Variable mapper : Z -> Z -> option Z.
Variable colour : Z -> Z -> Z -> outcome rgb.

Lemma cosmic_body_ok (n : nat) (frame x y : Z) (cv : Canvas) :
  mapper x y <> None ->
  (exists c, colour x y frame = Ok c) ->
  writes_within n cv ->
  exists cv1, cosmic_body mapper colour frame x y cv = (cv1, None) /\
              writes_within n cv1 /\
              cv_writes cv1 = cv_writes cv ++ in_buffer n (mapper x y).
Proof.
  intros Hm [c Hc] Hcv. unfold cosmic_body, in_buffer. rewrite Hc.
  destruct (mapper x y) as [idx|]; [|congruence].
  pose proof Hcv as [_ Hlen]. rewrite Hlen.
  destruct ((0 <=? idx) && (idx <? Z.of_nat n)) eqn:E.
  - apply andb_true_iff in E.
    assert (Hi : 0 <= idx < Z.of_nat n) by lia.
    pose proof (write_within n idx c cv Hcv Hi) as Hw.
    rewrite write_ok in * by (rewrite Hlen; exact Hi).
    eexists. split; [reflexivity|]. split; [exact Hw|reflexivity].
  - exists cv. now rewrite app_nil_r.
Qed.

End MorePatternFacts.

(** [animations/cosmic.py] with a mapping that always answers an integer
    and an arithmetic that does not raise, neither before the loops nor in
    the colour of a pixel of the matrix: the frame completes; the matrix
    walked is [ws2811.width] by [ws2811.height] (10 by 10 when the
    configuration does not say), or [hub75.cols] by [hub75.rows] (64 by 64)
    for the matrix type ["hub75"]; the pixels assigned are, row by row, the
    answers of the mapping that are indices of the buffer, the others being
    skipped. *)
Theorem cosmic_animate_walks_matrix (mapper : Z -> Z -> option Z)
    (colour : Z -> Z -> Z -> outcome rgb) (setup : Config -> Z -> option exn)
    (pixels : list rgb) (cfg : Config) (frame w h : Z) :
  (if is_str (config_get cfg "matrix_type" PNone) "hub75"
   then config_get cfg "hub75.cols" (PInt 64) = PInt w /\
        config_get cfg "hub75.rows" (PInt 64) = PInt h
   else config_get cfg "ws2811.width" (PInt 10) = PInt w /\
        config_get cfg "ws2811.height" (PInt 10) = PInt h) ->
  setup cfg frame = None ->
  (forall x y, 0 <= x < w -> 0 <= y < h -> mapper x y <> None) ->
  (forall x y, 0 <= x < w -> 0 <= y < h -> exists c, colour x y frame = Ok c) ->
  exists cv,
    cosmic_animate mapper colour setup pixels cfg frame = (cv, None) /\
    writes_within (length pixels) cv /\
    cv_writes cv =
      concat (map (fun y =>
                concat (map (fun x => in_buffer (length pixels) (mapper x y))
                            (range w))) (range h)).
Proof.
  intros Hdims Hs Hm Hc. unfold cosmic_animate. rewrite Hs.
  destruct (is_str (config_get cfg "matrix_type" PNone) "hub75");
    destruct Hdims as [-> ->]; cbn [as_int].
  all: apply (for_each_ok (writes_within (length pixels))
           (fun y => concat (map (fun x => in_buffer (length pixels) (mapper x y))
                                 (range w))));
    [|split; [constructor|reflexivity]].
  all: intros y cv0 Hy Hcv0; apply elem_of_range in Hy.
  all: apply (for_each_ok (writes_within (length pixels))
           (fun x => in_buffer (length pixels) (mapper x y))); [|exact Hcv0].
  all: intros x cv1 Hx Hcv1; apply elem_of_range in Hx.
  all: apply cosmic_body_ok; [now apply Hm | now apply Hc | exact Hcv1].
Qed.

Lemma cosmic_animate_walks_matrix_witness :
  exists cv,
    cosmic_animate (fun x y => Some (y * 10 + x)) all_white no_setup_error
      (replicate 4%nat black) ∅ 0 = (cv, None) /\
    cv_writes cv = [0; 1; 2; 3].
Proof.
  destruct (cosmic_animate_walks_matrix (fun x y => Some (y * 10 + x)) all_white
              no_setup_error (replicate 4%nat black) ∅ 0 10 10)
    as (cv & Hrun & _ & Hw).
  - split; reflexivity.
  - reflexivity.
  - discriminate.
  - intros x y _ _. exists white. reflexivity.
  - exists cv. split; [exact Hrun | exact Hw].
Defined.

(** The same pattern when the arithmetic before the loops raises (a [speed]
    that is not a number): the frame ends there and paints nothing. *)
Example cosmic_setup_failure :
  cosmic_animate (fun x y => Some (y * 10 + x)) all_white
    (fun _ _ => Some TypeError) (replicate 4%nat black) ∅ 0
  = (mkCanvas (replicate 4%nat black) [], Some TypeError).
Proof. reflexivity. Qed.

Lemma write_keeps_unwritten (pixels : list rgb) (i : Z) (v : rgb) (cv : Canvas) :
  0 <= i -> keeps_unwritten pixels cv ->
  keeps_unwritten pixels (fst (write i v cv)).
Proof.
  intros Hi [Hlen Hk]. unfold write, setitem.
  destruct ((0 <=? i) && (i <? Z.of_nat (length (cv_pixels cv)))) eqn:E.
  - apply andb_true_iff in E. split; cbn [fst cv_pixels cv_writes].
    + now rewrite length_insert.
    + intros k Hnot. rewrite not_elem_of_app in Hnot. destruct Hnot as [H1 H2].
      rewrite list_lookup_insert_ne; [now apply Hk|].
      intros Heq. apply H2. apply list_elem_of_singleton. lia.
  - destruct ((- Z.of_nat (length (cv_pixels cv)) <=? i) && (i <? 0)) eqn:E2.
    + apply andb_true_iff in E2. lia.
    + now split.
Qed.

Lemma cosmic_body_keeps_unwritten (mapper : Z -> Z -> option Z)
    (colour : Z -> Z -> Z -> outcome rgb) (pixels : list rgb) (frame x y : Z)
    (cv : Canvas) :
  keeps_unwritten pixels cv ->
  keeps_unwritten pixels (fst (cosmic_body mapper colour frame x y cv)).
Proof.
  intros Hcv. unfold cosmic_body.
  destruct (colour x y frame) as [c|e]; [|exact Hcv].
  destruct (mapper x y) as [idx|]; [|exact Hcv].
  destruct ((0 <=? idx) && (idx <? _)) eqn:E; [|exact Hcv].
  apply andb_true_iff in E. apply write_keeps_unwritten; [lia|exact Hcv].
Qed.

Lemma waves_body_keeps_unwritten (mapper : Z -> Z -> option Z)
    (colour : Z -> Z -> Z -> outcome rgb) (pixels : list rgb) (frame x y : Z)
    (cv : Canvas) :
  (forall i, mapper x y = Some i -> 0 <= i) ->
  keeps_unwritten pixels cv ->
  keeps_unwritten pixels (fst (waves_body mapper colour frame x y cv)).
Proof.
  intros Hm Hcv. unfold waves_body.
  destruct (mapper x y) as [i|]; [|exact Hcv].
  destruct (colour x y frame) as [c|e]; [|exact Hcv].
  apply write_keeps_unwritten; [now apply Hm|exact Hcv].
Qed.

(** Neither pattern clears the buffer: in a frame of [animations/cosmic.py],
    and in a frame of [scripts/waves.py] whose mapping answers no negative
    index, a pixel that is not assigned to keeps the colour of the previous
    frame, and the buffer keeps its length, also when the frame ends in an
    exception. *)
Theorem patterns_keep_unwritten_pixels (mapper : Z -> Z -> option Z)
    (colour : Z -> Z -> Z -> outcome rgb) (setup : Config -> Z -> option exn)
    (pixels : list rgb) (cfg : Config) (frame : Z) :
  keeps_unwritten pixels
    (fst (cosmic_animate mapper colour setup pixels cfg frame)) /\
  ((forall x y i, mapper x y = Some i -> 0 <= i) ->
   keeps_unwritten pixels (fst (waves_animate mapper colour pixels cfg frame))).
Proof.
  assert (H0 : keeps_unwritten pixels (mkCanvas pixels [])) by now split.
  split.
  - unfold cosmic_animate.
    destruct (setup cfg frame) as [e|]; [exact H0|].
    destruct (as_int (if is_str _ _ then config_get cfg "hub75.rows" _ else _))
      as [height|e]; [|exact H0].
    apply for_each_invariant; [|exact H0].
    intros y cv0 Hcv0.
    destruct (as_int (if is_str _ _ then config_get cfg "hub75.cols" _ else _))
      as [width|e]; [|exact Hcv0].
    apply for_each_invariant; [|exact Hcv0].
    intros x cv1. apply cosmic_body_keeps_unwritten.
  - intros Hm. unfold waves_animate.
    destruct (getattr cfg "MATRIX_HEIGHT") as [hv|e]; [|exact H0].
    destruct (as_int hv) as [height|e]; [|exact H0].
    apply for_each_invariant; [|exact H0].
    intros y cv0 Hcv0.
    destruct (getattr cfg "MATRIX_WIDTH") as [wv|e]; [|exact Hcv0].
    destruct (as_int wv) as [width|e]; [|exact Hcv0].
    apply for_each_invariant; [|exact Hcv0].
    intros x cv1. apply waves_body_keeps_unwritten. intros i. apply Hm.
Qed.

Lemma patterns_keep_unwritten_pixels_witness :
  keeps_unwritten [black; black; black; black]
    (fst (waves_animate (fun _ _ => Some 1) all_white
            [black; black; black; black] waves_config 0)).
Proof.
  apply (patterns_keep_unwritten_pixels (fun _ _ => Some 1) all_white
           no_setup_error [black; black; black; black] waves_config 0).
  intros x y i H. injection H as <-. lia.
Defined.

(** ** The built-in program *)





Section BuiltinFacts.
Variable colour : Config -> Z -> Z -> outcome rgb.
Variable cfg : Config.
Variable frame : Z.




End BuiltinFacts.



(** A configuration without [SPEED], [BRIGHTNESS] or [GAMMA], or with a
    negative [GAMMA]: the arithmetic of pixel 0 raises and nothing is
    painted. *)
Example cosmic_animation_colour_failure :
  cosmic_animation (fun _ _ _ => Raise AttributeError) [black; black]
    (<["LED_COUNT" := PInt 2]> ∅) 0
  = (mkCanvas [black; black] [], Some AttributeError).
Proof. reflexivity. Qed.






(** ** The cleaner and the migration *)

Lemma startswith_append (a b : string) : startswith (a +:+ b) a = true.
Proof.
  unfold startswith. induction a as [|c a IH]; [now destruct b|].
  rewrite append_cons. simpl.
  destruct (Ascii.ascii_dec c c) as [_|F]; [exact IH|congruence].
Qed.

(** What the cleaner never archives: a path that ends with a whitelisted
    file name, and a path that starts with the name of one of the new
    directories.  The second test is on the characters, not on the path
    components: ["webgui"], which the cleaner lists as deprecated, starts
    with ["web"] and is kept, as are the deprecated files under
    ["hardware"]. *)
Theorem should_archive_never (front rest keep d : string) :
  keep ∈ keep_files -> d ∈ optimized_dirs ->
  should_archive (front +:+ keep) = false /\
  should_archive (d +:+ rest) = false.
Proof.
  intros Hk Hd. unfold should_archive. split.
  - assert (E : existsb (fun keep_pattern =>
                   String.eqb (front +:+ keep) keep_pattern
                   || endswith (front +:+ keep) keep_pattern) keep_files = true).
    { apply existsb_exists. exists keep. split; [now apply list_elem_of_In|].
      rewrite endswith_append. apply orb_true_r. }
    now rewrite E.
  - destruct (existsb _ keep_files); [reflexivity|].
    assert (E : existsb (fun d0 => startswith (d +:+ rest) d0) optimized_dirs = true).
    { apply existsb_exists. exists d. split; [now apply list_elem_of_In|].
      apply startswith_append. }
    now rewrite E.
Qed.

Lemma should_archive_never_witness :
  should_archive ("backup/" +:+ "scripts/setup.sh") = false /\
  should_archive ("web" +:+ "gui") = false.
Proof.
  apply should_archive_never; apply list_elem_of_In; simpl; tauto.
Defined.

Lemma migrate_config_dict (c : gmap string json) (write_fails : bool) :
  migrate_config (Settings c) write_fails =
    if bool_decide (is_Some (c !! "hub75_settings")) then (true, Settings c)
    else if write_fails then (false, Settings c)
    else (true,
          Settings
            (if bool_decide (is_Some (<["hub75_settings" := hub75_defaults]> c
                                        !! "matrix_type"))
             then <["hub75_settings" := hub75_defaults]> c
             else <["matrix_type" := JStr "WS2811"]>
                    (<["hub75_settings" := hub75_defaults]> c))).
Proof. reflexivity. Qed.

(** The migration is safe to run and to run again.  On a settings file that
    is absent or holds a JSON object, and when the file can be written, it
    succeeds; the result has a ['hub75_settings'] entry; every entry of the
    original is still there with its value (an existing ['matrix_type'] or
    ['hub75_settings'] is not overwritten); nothing but ['hub75_settings']
    and ['matrix_type'] is added; and a second run changes nothing, whether
    or not the file can be written. *)
Theorem migrate_config_idempotent (file : settings_file)
    (c : gmap string json) :
  (file = Missing /\ c = ∅) \/ file = Settings c ->
  exists c',
    migrate_config file false = (true, Settings c') /\
    is_Some (c' !! "hub75_settings") /\
    (forall k v, c !! k = Some v -> c' !! k = Some v) /\
    (forall k, is_Some (c' !! k) ->
               is_Some (c !! k) \/ k = "hub75_settings" \/ k = "matrix_type") /\
    (forall write_fails,
       migrate_config (Settings c') write_fails = (true, Settings c')).
Proof.
  intros Hfile.
  assert (E : migrate_config file false =
              if bool_decide (is_Some (c !! "hub75_settings"))
              then (true, match file with Missing => Missing | _ => Settings c end)
              else (true,
                    Settings
                      (if bool_decide (is_Some (<["hub75_settings" := hub75_defaults]> c
                                                  !! "matrix_type"))
                       then <["hub75_settings" := hub75_defaults]> c
                       else <["matrix_type" := JStr "WS2811"]>
                              (<["hub75_settings" := hub75_defaults]> c)))).
  { destruct Hfile as [[-> ->] | ->]; reflexivity. }
  rewrite E. clear E.
  destruct (bool_decide (is_Some (c !! "hub75_settings"))) eqn:Hm.
  - apply bool_decide_eq_true in Hm.
    assert (Hf : file = Settings c).
    { destruct Hfile as [[-> ->] | ->]; [|reflexivity].
      rewrite lookup_empty in Hm. destruct Hm; discriminate. }
    rewrite Hf. exists c. split; [reflexivity|]. split; [exact Hm|].
    split; [auto|]. split; [auto|].
    intros wf. rewrite migrate_config_dict.
    now rewrite (bool_decide_eq_true_2 _ Hm).
  - apply bool_decide_eq_false in Hm.
    set (c1 := <["hub75_settings" := hub75_defaults]> c).
    assert (H1 : is_Some (c1 !! "hub75_settings"))
      by (unfold c1; rewrite lookup_insert_eq; eauto).
    assert (Hnone : c !! "hub75_settings" = None)
      by now apply eq_None_not_Some.
    destruct (bool_decide (is_Some (c1 !! "matrix_type"))) eqn:Ht.
    + exists c1. split; [reflexivity|]. split; [exact H1|]. split; [|split].
      * intros k v Hk. unfold c1. rewrite lookup_insert_ne; [exact Hk|].
        intros <-. congruence.
      * intros k Hk. unfold c1 in Hk.
        destruct (decide ("hub75_settings" = k)) as [<-|Hne]; [auto|].
        rewrite lookup_insert_ne in Hk by exact Hne. auto.
      * intros wf. rewrite migrate_config_dict.
        now rewrite (bool_decide_eq_true_2 _ H1).
    + apply bool_decide_eq_false in Ht.
      assert (Htn : c1 !! "matrix_type" = None) by now apply eq_None_not_Some.
      set (c2 := <["matrix_type" := JStr "WS2811"]> c1).
      assert (H2 : is_Some (c2 !! "hub75_settings")).
      { unfold c2. rewrite lookup_insert_ne by discriminate. exact H1. }
      exists c2. split; [reflexivity|]. split; [exact H2|]. split; [|split].
      * intros k v Hk. unfold c2, c1.
        assert (k <> "hub75_settings") by (intros ->; congruence).
        assert (k <> "matrix_type").
        { intros ->. unfold c1 in Htn.
          rewrite lookup_insert_ne in Htn by discriminate. congruence. }
        now rewrite !lookup_insert_ne by congruence.
      * intros k Hk. unfold c2, c1 in Hk.
        destruct (decide ("matrix_type" = k)) as [<-|Hne1]; [auto|].
        rewrite lookup_insert_ne in Hk by exact Hne1.
        destruct (decide ("hub75_settings" = k)) as [<-|Hne2]; [auto|].
        rewrite lookup_insert_ne in Hk by exact Hne2. auto.
      * intros wf. rewrite migrate_config_dict.
        now rewrite (bool_decide_eq_true_2 _ H2).
Qed.

Lemma migrate_config_idempotent_witness :
  exists c',
    migrate_config (Settings (<["matrix_type" := JStr "HUB75"]> ∅)) false
      = (true, Settings c') /\
    c' !! "matrix_type" = Some (JStr "HUB75") /\
    migrate_config (Settings c') true = (true, Settings c').
Proof.
  destruct (migrate_config_idempotent
              (Settings (<["matrix_type" := JStr "HUB75"]> ∅))
              (<["matrix_type" := JStr "HUB75"]> ∅))
    as (c' & Hrun & _ & Hkeep & _ & Hagain).
  - now right.
  - exists c'. split; [exact Hrun|]. split; [|apply Hagain].
    apply Hkeep. reflexivity.
Defined.
